(** * libteam: the protocol engine of the team device library

    A shallow embedding of [lib/libteam.c]: the log-priority parser, the
    translation of libnl error codes, the change-handler registry and its
    dispatcher, and the decoders of the port-list and option-list messages,
    followed by the properties the specification states about them.

    Conventions.
    - C integers are [Z]; a conversion to a narrower type is written out
      ([to_int], [to_u32], [to_u8]).
    - A C string is a [string]; the terminating NUL is the end of the
      [string], and a NUL character inside it terminates it as well
      ([peek], [strcpy]).
    - Functions that work on [struct team_handle *th] run in the monad [M]
      over [state], which holds the handle, the caller's memory, what the
      two sockets will receive, and the trace of calls leaving the library.
    - The result of a call that leaves the library ([malloc] included)
      is the oracle's; a run ends by returning, by dereferencing NULL
      ([Fault]) or by waiting for ever in a receive ([Blocked]).
    - A callback of a change handler is such a call; it does not touch
      the handle (the specification forbids it to register or unregister
      handlers).
    - Diagnostics (the [err], [info] and [dbg] macros) do not touch the
      handle and are left out; so is the release of memory. *)

From Stdlib Require Import ZArith List String Ascii Bool Lia.
Import ListNotations.

Local Open Scope string_scope.
Local Open Scope list_scope.
Local Open Scope Z_scope.

(** ** C integers *)

Definition INT_MIN : Z := - 2 ^ 31.
Definition INT_MAX : Z := 2 ^ 31 - 1.
Definition LONG_MIN : Z := - 2 ^ 63.
Definition LONG_MAX : Z := 2 ^ 63 - 1.

(** Conversion to [int] (two's complement, as gcc defines it). *)
Definition to_int (x : Z) : Z := (x + 2 ^ 31) mod 2 ^ 32 - 2 ^ 31.

Definition to_u32 (x : Z) : Z := x mod 2 ^ 32.

Definition to_u8 (x : Z) : Z := x mod 2 ^ 8.

(** [abs] from stdlib.h on an [int]; [abs(INT_MIN)] wraps to [INT_MIN]. *)
Definition c_abs (x : Z) : Z := to_int (Z.abs x).

(** ** C strings and the libc functions the library calls *)

Definition NUL : ascii := Ascii.zero.

(** [s[0]]: the first character, the terminator when [s] is at its end. *)
Definition peek (s : string) : ascii :=
  match s with
  | EmptyString => NUL
  | String c _ => c
  end.

(** [s + 1], staying on the terminator once it is reached. *)
Definition next (s : string) : string :=
  match s with
  | EmptyString => EmptyString
  | String _ r => r
  end.

Definition uchar (c : ascii) : Z := Z.of_N (N_of_ascii c).

(** [isspace] in the C locale: space, and \t \n \v \f \r. *)
Definition isspace (c : ascii) : bool :=
  (uchar c =? 32) || ((9 <=? uchar c) && (uchar c <=? 13)).

Definition isdigit (c : ascii) : bool :=
  (48 <=? uchar c) && (uchar c <=? 57).

Definition digit_val (c : ascii) : Z := uchar c - 48.

Fixpoint skip_spaces (s : string) : string :=
  match s with
  | String c r => if isspace c then skip_spaces r else s
  | EmptyString => s
  end.

(** The digit loop of [strtol]: the value read so far and where it stops. *)
Fixpoint strtol_digits (acc : Z) (s : string) : Z * string :=
  match s with
  | String c r =>
      if isdigit c then strtol_digits (10 * acc + digit_val c) r else (acc, s)
  | EmptyString => (acc, s)
  end.

Definition saturate_long (x : Z) : Z :=
  if x <? LONG_MIN then LONG_MIN
  else if LONG_MAX <? x then LONG_MAX
  else x.

(** [strtol(nptr, &endptr, 10)] with a 64-bit [long]: leading white space,
    an optional sign, decimal digits; the value saturates; without a digit
    nothing is converted, the value is 0 and [endptr] is [nptr]. The result
    is the value and [endptr]. *)
Definition strtol (nptr : string) : Z * string :=
  let s := skip_spaces nptr in
  let '(neg, body) :=
    if Ascii.eqb (peek s) "-" then (true, next s)
    else if Ascii.eqb (peek s) "+" then (false, next s)
    else (false, s) in
  if isdigit (peek body) then
    let '(v, endptr) := strtol_digits 0 body in
    (saturate_long (if neg then - v else v), endptr)
  else (0, nptr).

(** [strncmp(s1, s2, n)]: zero when the first [n] characters agree or both
    strings end before that, the difference of the first differing pair
    otherwise. *)
Fixpoint strncmp (s1 s2 : string) (n : nat) : Z :=
  match n with
  | O => 0
  | S n' =>
      if Ascii.eqb (peek s1) (peek s2)
      then if Ascii.eqb (peek s1) NUL then 0
           else strncmp (next s1) (next s2) n'
      else uchar (peek s1) - uchar (peek s2)
  end.

Fixpoint strcmp (s1 s2 : string) : Z :=
  match s1 with
  | EmptyString => 0 - uchar (peek s2)
  | String c1 r1 =>
      if Ascii.eqb c1 (peek s2)
      then if Ascii.eqb c1 NUL then 0 else strcmp r1 (next s2)
      else uchar c1 - uchar (peek s2)
  end.

(** What [strcpy] copies: the characters before the first NUL. *)
Fixpoint strcpy (src : string) : string :=
  match src with
  | EmptyString => EmptyString
  | String c r => if Ascii.eqb c NUL then EmptyString else String c (strcpy r)
  end.

(** ** Logging priority (libteam.c, SECTION: logging) *)

(** syslog.h *)
Definition LOG_ERR : Z := 3.
Definition LOG_INFO : Z := 6.
Definition LOG_DEBUG : Z := 7.

Definition log_priority (priority : string) : Z :=
  let '(l, endptr) := strtol priority in
  let prio := to_int l in
  if Ascii.eqb (peek endptr) NUL || isspace (peek endptr) then prio
  else if strncmp priority "err" 3 =? 0 then LOG_ERR
  else if strncmp priority "info" 4 =? 0 then LOG_INFO
  else if strncmp priority "debug" 5 =? 0 then LOG_DEBUG
  else 0.

(** ** Error translation (libteam.c, SECTION: libnl helpers) *)

(** netlink/errno.h of libnl 3 *)
Definition NLE_INTR : Z := 2.
Definition NLE_BAD_SOCK : Z := 3.
Definition NLE_AGAIN : Z := 4.
Definition NLE_NOMEM : Z := 5.
Definition NLE_EXIST : Z := 6.
Definition NLE_INVAL : Z := 7.
Definition NLE_RANGE : Z := 8.
Definition NLE_OPNOTSUPP : Z := 10.
Definition NLE_AF_NOSUPPORT : Z := 11.
Definition NLE_OBJ_NOTFOUND : Z := 12.
Definition NLE_NOADDR : Z := 19.
Definition NLE_BUSY : Z := 25.
Definition NLE_PROTO_MISMATCH : Z := 26.
Definition NLE_NOACCESS : Z := 27.
Definition NLE_PERM : Z := 28.
Definition NLE_NODEV : Z := 31.

(** errno.h of Linux *)
Definition EPERM : Z := 1.
Definition ENOENT : Z := 2.
Definition EINTR : Z := 4.
Definition EAGAIN : Z := 11.
Definition ENOMEM : Z := 12.
Definition EACCES : Z := 13.
Definition EBUSY : Z := 16.
Definition EEXIST : Z := 17.
Definition ENODEV : Z := 19.
Definition EINVAL : Z := 22.
Definition ERANGE : Z := 34.
Definition ENOTSOCK : Z := 88.
Definition EPROTONOSUPPORT : Z := 93.
Definition EOPNOTSUPP : Z := 95.
Definition EAFNOSUPPORT : Z := 97.
Definition EADDRNOTAVAIL : Z := 99.
Definition ENOBUFS : Z := 105.

(** The [switch] of [nl2syserr], one [case] per line. *)
Definition nl2syserr (nl_error : Z) : Z :=
  let v := c_abs nl_error in
  if v =? 0 then 0
  else if v =? NLE_EXIST then EEXIST
  else if v =? NLE_NOADDR then EADDRNOTAVAIL
  else if v =? NLE_OBJ_NOTFOUND then ENOENT
  else if v =? NLE_INTR then EINTR
  else if v =? NLE_AGAIN then EAGAIN
  else if v =? NLE_BAD_SOCK then ENOTSOCK
  else if v =? NLE_NOACCESS then EACCES
  else if v =? NLE_INVAL then EINVAL
  else if v =? NLE_NOMEM then ENOMEM
  else if v =? NLE_AF_NOSUPPORT then EAFNOSUPPORT
  else if v =? NLE_PROTO_MISMATCH then EPROTONOSUPPORT
  else if v =? NLE_OPNOTSUPP then EOPNOTSUPP
  else if v =? NLE_PERM then EPERM
  else if v =? NLE_BUSY then EBUSY
  else if v =? NLE_RANGE then ERANGE
  else if v =? NLE_NODEV then ENODEV
  else EINVAL.

(** ** Netlink messages, as libnl hands them to the library *)

(** An attribute, seen through libnl's accessors: each accessor's result is
    a field of its own, so nothing is assumed on the layout of the payload. *)
Record nlattr := mk_nlattr {
  payload_u32 : Z;
  payload_u8 : Z;
  payload_string : string }.

Definition nla_get_u32 (nla : nlattr) : Z := to_u32 (payload_u32 nla).
Definition nla_get_u8 (nla : nlattr) : Z := to_u8 (payload_u8 nla).
Definition nla_get_string (nla : nlattr) : string := payload_string nla.

(** [struct nlattr *port_attrs[TEAM_ATTR_PORT_MAX + 1]]: one slot per tag
    of linux/if_team.h, [None] for a NULL slot. *)
Record port_attrs := mk_port_attrs {
  TEAM_ATTR_PORT_IFINDEX : option nlattr;
  TEAM_ATTR_PORT_CHANGED : option nlattr;
  TEAM_ATTR_PORT_LINKUP : option nlattr;
  TEAM_ATTR_PORT_SPEED : option nlattr;
  TEAM_ATTR_PORT_DUPLEX : option nlattr }.

(** [struct nlattr *option_attrs[TEAM_ATTR_OPTION_MAX + 1]]. *)
Record option_attrs := mk_option_attrs {
  TEAM_ATTR_OPTION_NAME : option nlattr;
  TEAM_ATTR_OPTION_CHANGED : option nlattr;
  TEAM_ATTR_OPTION_TYPE : option nlattr;
  TEAM_ATTR_OPTION_DATA : option nlattr }.

(** A nested attribute of a list: either [nla_parse_nested] fails on it, or
    it fills the table [tb]. *)
Inductive nested (T : Type) : Type :=
  | nested_malformed
  | nested_table (tb : T).
Arguments nested_malformed {T}.
Arguments nested_table {T} tb.

Definition nla_parse_nested {T : Type} (nla : nested T) : option T :=
  match nla with
  | nested_malformed => None
  | nested_table tb => Some tb
  end.

(** The commands of linux/if_team.h. *)
Inductive team_cmd :=
  | TEAM_CMD_NOOP
  | TEAM_CMD_OPTIONS_SET
  | TEAM_CMD_OPTIONS_GET
  | TEAM_CMD_PORT_LIST_GET
  | TEAM_CMD_unknown (n : Z).

(** A generic netlink message: the command of its header and the table
    [attrs] that [genlmsg_parse] fills from it. *)
Record nl_msg := mk_nl_msg {
  cmd : team_cmd;
  TEAM_ATTR_TEAM_IFINDEX : option nlattr;
  TEAM_ATTR_LIST_OPTION : option (list (nested option_attrs));
  TEAM_ATTR_LIST_PORT : option (list (nested port_attrs)) }.

(** What [nl_recvmsgs_default] finds in the buffer of one receive, by the
    callback libnl runs on it. *)
Inductive nl_delivery :=
  | nl_valid (msg : nl_msg)
  | nl_finish
  | nl_ack
  | nl_error (error : Z).

(** The directive a callback returns to libnl. *)
Inductive nl_cb_action := NL_OK | NL_SKIP | NL_STOP.

(** netlink/attr.h of libnl *)
Definition NLA_U32 : Z := 3.
Definition NLA_STRING : Z := 5.

(** ** The handle and what it owns *)

Definition ptr := nat.

(** Modelled from the spec: the change categories of team.h, which is not
    among the sources; the spec names two categories, PORT_CHANGE and
    OPTION_CHANGE, as bits of a mask. *)
Definition TEAM_PORT_CHANGE : Z := 1.
Definition TEAM_OPTION_CHANGE : Z := 2.
Definition TEAM_ANY_CHANGE : Z := Z.lor TEAM_PORT_CHANGE TEAM_OPTION_CHANGE.

(** Modelled from the spec: [struct team_change_handler] of team.h, the
    (interest-mask, callback, opaque context) triple; [func] is the
    address of the callback. *)
Record team_change_handler := mk_team_change_handler {
  func : ptr;
  func_priv : ptr;
  type_mask : Z }.

(** Modelled from the spec: [enum team_option_type] of team.h. *)
Inductive team_option_type := TEAM_OPTION_TYPE_U32 | TEAM_OPTION_TYPE_STRING.

Record team_port := mk_team_port {
  port_ifindex : Z;
  port_speed : Z;
  port_duplex : Z;
  port_linkup : bool;
  port_changed : bool }.

(** [data] is the block of bytes [create_option] copies. *)
Record team_option := mk_team_option {
  option_type : team_option_type;
  option_name : string;
  option_data : list Z;
  option_changed : bool }.

(** [struct team_handle]; the sockets and the link cache are libnl's and
    appear only in the calls made on them. [th_change_handler_list] holds
    the [handler] pointer of each [struct change_handler_item]. *)
Record team_handle := mk_team_handle {
  th_nl_sock_err : Z;
  th_family : Z;
  th_ifindex : Z;
  th_port_list : list team_port;
  th_option_list : list team_option;
  th_change_handler_list : list ptr;
  th_pending_type_mask : Z;
  th_log_priority : Z }.

Definition set_nl_sock_err (v : Z) (h : team_handle) : team_handle :=
  mk_team_handle v (th_family h) (th_ifindex h) (th_port_list h)
    (th_option_list h) (th_change_handler_list h) (th_pending_type_mask h)
    (th_log_priority h).

Definition set_family (v : Z) (h : team_handle) : team_handle :=
  mk_team_handle (th_nl_sock_err h) v (th_ifindex h) (th_port_list h)
    (th_option_list h) (th_change_handler_list h) (th_pending_type_mask h)
    (th_log_priority h).

Definition set_ifindex (v : Z) (h : team_handle) : team_handle :=
  mk_team_handle (th_nl_sock_err h) (th_family h) v (th_port_list h)
    (th_option_list h) (th_change_handler_list h) (th_pending_type_mask h)
    (th_log_priority h).

Definition set_port_list (v : list team_port) (h : team_handle) : team_handle :=
  mk_team_handle (th_nl_sock_err h) (th_family h) (th_ifindex h) v
    (th_option_list h) (th_change_handler_list h) (th_pending_type_mask h)
    (th_log_priority h).

Definition set_option_list (v : list team_option) (h : team_handle)
  : team_handle :=
  mk_team_handle (th_nl_sock_err h) (th_family h) (th_ifindex h)
    (th_port_list h) v (th_change_handler_list h) (th_pending_type_mask h)
    (th_log_priority h).

Definition set_change_handler_list (v : list ptr) (h : team_handle)
  : team_handle :=
  mk_team_handle (th_nl_sock_err h) (th_family h) (th_ifindex h)
    (th_port_list h) (th_option_list h) v (th_pending_type_mask h)
    (th_log_priority h).

Definition set_pending_type_mask (v : Z) (h : team_handle) : team_handle :=
  mk_team_handle (th_nl_sock_err h) (th_family h) (th_ifindex h)
    (th_port_list h) (th_option_list h) (th_change_handler_list h) v
    (th_log_priority h).

Definition set_log_priority (v : Z) (h : team_handle) : team_handle :=
  mk_team_handle (th_nl_sock_err h) (th_family h) (th_ifindex h)
    (th_port_list h) (th_option_list h) (th_change_handler_list h)
    (th_pending_type_mask h) v.

(** ** The world around the handle *)

Inductive nl_socket := nl_sock | nl_sock_event | nl_cli_sock.

(** The calls that leave the library: libc, libnl, and the callbacks of the
    registered change handlers. *)
Inductive ext_call :=
  | c_malloc
  | c_nl_socket_alloc
  | c_nl_cli_alloc_socket
  | c_nl_cli_connect
  | c_nl_cli_link_alloc_cache
  | c_nl_socket_free (sk : nl_socket)
  | c_nl_socket_disable_seq_check (sk : nl_socket)
  | c_genl_connect (sk : nl_socket)
  | c_genl_ctrl_resolve
  | c_genl_ctrl_resolve_grp
  | c_nl_socket_add_membership (sk : nl_socket) (grp_id : Z)
  | c_nl_socket_modify_err_cb (sk : nl_socket)
  | c_nl_socket_modify_cb (sk : nl_socket)
  | c_nlmsg_alloc
  | c_genlmsg_put (family : Z) (c : team_cmd)
  | c_nla_put_u32 (v : Z)
  | c_nl_send_auto_complete
  | c_nl_recvmsgs_default (sk : nl_socket)
  | c_nlmsg_free
  | c_rtnl_link_alloc
  | c_rtnl_link_set_ifindex (ifindex : Z)
  | c_rtnl_link_delete
  | c_rtnl_link_put
  | c_func (f : ptr) (priv : ptr) (mask : Z).

(** - [mem]: the [struct team_change_handler] the caller keeps at each
      address;
    - [environ_TEAM_LOG]: what [getenv("TEAM_LOG")] returns;
    - [rx_sock], [rx_sock_event]: what each coming [nl_recvmsgs_default] on
      the socket finds, oldest first; a receive on an empty queue blocks;
    - [oracle]: the result of the last call of a history of calls; a
      pointer result is 0 for NULL;
    - [trace]: the calls made so far, oldest first. *)
Record state := mk_state {
  th : team_handle;
  mem : ptr -> team_change_handler;
  environ_TEAM_LOG : option string;
  rx_sock : list (list nl_delivery);
  rx_sock_event : list (list nl_msg);
  oracle : list ext_call -> Z;
  trace : list ext_call }.

Definition set_th (h : team_handle) (s : state) : state :=
  mk_state h (mem s) (environ_TEAM_LOG s) (rx_sock s) (rx_sock_event s)
    (oracle s) (trace s).

Definition set_rx_sock (rx : list (list nl_delivery)) (s : state) : state :=
  mk_state (th s) (mem s) (environ_TEAM_LOG s) rx (rx_sock_event s)
    (oracle s) (trace s).


Definition set_trace (t : list ext_call) (s : state) : state :=
  mk_state (th s) (mem s) (environ_TEAM_LOG s) (rx_sock s) (rx_sock_event s)
    (oracle s) t.

(** How a run ends: it returns [a] in state [s], it dereferences NULL, or
    it waits for ever in a receive. *)
Inductive outcome (A : Type) : Type :=
  | Done (a : A) (s : state)
  | Fault
  | Blocked.
Arguments Done {A} a s.
Arguments Fault {A}.
Arguments Blocked {A}.

Definition M (A : Type) : Type := state -> outcome A.

Definition ret {A : Type} (a : A) : M A := fun s => Done a s.

Definition bind {A B : Type} (m : M A) (k : A -> M B) : M B :=
  fun s =>
    match m s with
    | Done a s' => k a s'
    | Fault => Fault
    | Blocked => Blocked
    end.

Notation "x <- m ;; k" := (bind m (fun x => k))
  (at level 61, m at next level, right associativity).
Notation "m ;;; k" := (bind m (fun _ => k))
  (at level 61, right associativity).

Definition fault {A : Type} : M A := fun _ => Fault.
Definition block {A : Type} : M A := fun _ => Blocked.
Definition get : M state := fun s => Done s s.
Definition get_th : M team_handle := fun s => Done (th s) s.
Definition modify_th (f : team_handle -> team_handle) : M unit :=
  fun s => Done tt (set_th (f (th s)) s).

(** A call that leaves the library: it is appended to the trace and its
    result is the oracle's. *)
Definition call (c : ext_call) : M Z :=
  fun s => let t := trace s ++ [c] in Done (oracle s t) (set_trace t s).

(** Modelled from the spec: list.h is not among the sources. The spec
    keeps each collection in insertion order and walks it in that order,
    so [list_add] puts the node last and the [list_for_each] macros run
    from the first node to the last; [list_del] unlinks the node it is
    given, here by its position; [list_move_nodes] hands the nodes of the
    source over to the destination. *)
Definition list_add {A : Type} (head : list A) (new_node : A) : list A :=
  head ++ [new_node].

Definition list_move_nodes {A : Type} (dst_head src_head : list A) : list A :=
  dst_head ++ src_head.

Fixpoint list_del {A : Type} (node : nat) (head : list A) : list A :=
  match head, node with
  | [], _ => []
  | _ :: r, O => r
  | p :: r, S i => p :: list_del i r
  end.

(** ** Netlink helpers (libteam.c, SECTION: Netlink helpers) *)

(** [arg] of the three callbacks is [&th->nl_sock_err]. *)
Definition ack_handler : M nl_cb_action :=
  modify_th (set_nl_sock_err 0) ;;; ret NL_STOP.

Definition finish_handler : M nl_cb_action :=
  modify_th (set_nl_sock_err 0) ;;; ret NL_SKIP.

Definition error_handler (nl_err_error : Z) : M nl_cb_action :=
  modify_th (set_nl_sock_err nl_err_error) ;;; ret NL_SKIP.

(** libnl's walk over the buffer of one receive, with the callbacks
    [team_init] installs on the socket and [valid_handler] for
    NL_CB_VALID: after NL_OK and NL_SKIP it goes on to the next message,
    after NL_STOP it returns. *)
Fixpoint nl_recvmsgs (valid_handler : nl_msg -> M nl_cb_action)
    (batch : list nl_delivery) : M unit :=
  match batch with
  | [] => ret tt
  | d :: rest =>
      act <- match d with
             | nl_valid msg => valid_handler msg
             | nl_finish => finish_handler
             | nl_ack => ack_handler
             | nl_error e => error_handler e
             end ;;
      match act with
      | NL_STOP => ret tt
      | _ => nl_recvmsgs valid_handler rest
      end
  end.

(** [while (th->nl_sock_err > 0) nl_recvmsgs_default(th->nl_sock);]
    over the receives [rx] still to come. *)
Fixpoint while_nl_sock_err (valid_handler : nl_msg -> M nl_cb_action)
    (rx : list (list nl_delivery)) : M unit :=
  fun s =>
    if th_nl_sock_err (th s) >? 0 then
      match rx with
      | [] => Blocked
      | batch :: rx' =>
          (call (c_nl_recvmsgs_default nl_sock) ;;;
           nl_recvmsgs valid_handler batch ;;;
           while_nl_sock_err valid_handler rx') (set_rx_sock rx' s)
      end
    else Done tt s.

(** [send_and_recv(th, msg, valid_handler, th)], for a [valid_handler]
    that is not NULL, as in [get_port_list] and [get_options]. *)
Definition send_and_recv (valid_handler : nl_msg -> M nl_cb_action) : M Z :=
  err <- call c_nl_send_auto_complete ;;
  if err <? 0 then
    call c_nlmsg_free ;;; ret (- nl2syserr err)
  else
    modify_th (set_nl_sock_err 1) ;;;
    call (c_nl_socket_modify_cb nl_sock) ;;;
    s <- get ;;
    while_nl_sock_err valid_handler (rx_sock s) ;;;
    h <- get_th ;;
    call c_nlmsg_free ;;;
    ret (th_nl_sock_err h).

(** ** Change handlers (libteam.c, SECTION: Change handlers) *)

Definition set_call_change_handlers (set_type_mask : Z) : M unit :=
  modify_th (fun h =>
    set_pending_type_mask (Z.lor (th_pending_type_mask h) set_type_mask) h).

(** The body of [list_for_each_node_entry] in
    [check_call_change_handlers]; a callback is a call that leaves the
    library. *)
Fixpoint call_change_handlers (to_call_type_mask : Z) (l : list ptr)
  : M unit :=
  match l with
  | [] => ret tt
  | handler :: rest =>
      s <- get ;;
      let item_type_mask :=
        Z.land (type_mask (mem s handler)) to_call_type_mask in
      (if item_type_mask =? 0 then ret tt
       else call (c_func (func (mem s handler)) (func_priv (mem s handler))
                         item_type_mask) ;;; ret tt) ;;;
      call_change_handlers to_call_type_mask rest
  end.

Definition check_call_change_handlers (call_type_mask : Z) : M unit :=
  h <- get_th ;;
  let to_call_type_mask := Z.land (th_pending_type_mask h) call_type_mask in
  call_change_handlers to_call_type_mask (th_change_handler_list h) ;;;
  modify_th (fun h =>
    set_pending_type_mask
      (Z.land (th_pending_type_mask h) (Z.lnot call_type_mask)) h).

(** The node found is given by its position in the list. *)
Fixpoint find_change_handler (l : list ptr) (handler : ptr) : option nat :=
  match l with
  | [] => None
  | p :: rest =>
      if Nat.eqb p handler then Some O
      else match find_change_handler rest handler with
           | Some i => Some (S i)
           | None => None
           end
  end.

Definition team_change_handler_register (handler : ptr) : M Z :=
  h <- get_th ;;
  match find_change_handler (th_change_handler_list h) handler with
  | Some _ => ret (- EEXIST)
  | None =>
      handler_item <- call c_malloc ;;
      if handler_item =? 0 then ret (- ENOMEM)
      else
        modify_th (fun h =>
          set_change_handler_list
            (list_add (th_change_handler_list h) handler) h) ;;;
        ret 0
  end.

Definition team_change_handler_unregister (handler : ptr) : M unit :=
  h <- get_th ;;
  match find_change_handler (th_change_handler_list h) handler with
  | None => ret tt
  | Some handler_item =>
      modify_th (fun h =>
        set_change_handler_list
          (list_del handler_item (th_change_handler_list h)) h)
  end.

(** ** Ports (libteam.c, SECTION: Ports) *)

Definition set_port_ifindex (v : Z) (p : team_port) : team_port :=
  mk_team_port v (port_speed p) (port_duplex p) (port_linkup p)
    (port_changed p).

Definition set_port_speed (v : Z) (p : team_port) : team_port :=
  mk_team_port (port_ifindex p) v (port_duplex p) (port_linkup p)
    (port_changed p).

Definition set_port_duplex (v : Z) (p : team_port) : team_port :=
  mk_team_port (port_ifindex p) (port_speed p) v (port_linkup p)
    (port_changed p).

Definition set_port_linkup (v : bool) (p : team_port) : team_port :=
  mk_team_port (port_ifindex p) (port_speed p) (port_duplex p) v
    (port_changed p).

Definition set_port_changed (v : bool) (p : team_port) : team_port :=
  mk_team_port (port_ifindex p) (port_speed p) (port_duplex p)
    (port_linkup p) v.

(** The nodes are freed; the list is left empty. *)
Definition flush_port_list : M unit := modify_th (set_port_list []).

(** The assignments to [*port] in the loop of [get_port_list_handler],
    from the [memset] to the [list_add]; [ifindex_attr] is
    [port_attrs[TEAM_ATTR_PORT_IFINDEX]], found not to be NULL. *)
Definition fill_port (ifindex_attr : nlattr) (attrs : port_attrs)
  : team_port :=
  let port := mk_team_port 0 0 0 false false in
  let port := set_port_ifindex (nla_get_u32 ifindex_attr) port in
  let port := match TEAM_ATTR_PORT_CHANGED attrs with
              | Some _ => set_port_changed true port
              | None => port
              end in
  let port := match TEAM_ATTR_PORT_LINKUP attrs with
              | Some _ => set_port_linkup true port
              | None => port
              end in
  let port := match TEAM_ATTR_PORT_SPEED attrs with
              | Some a => set_port_speed (nla_get_u32 a) port
              | None => port
              end in
  let port := match TEAM_ATTR_PORT_DUPLEX attrs with
              | Some a => set_port_duplex (nla_get_u8 a) port
              | None => port
              end in
  port.

(** [nla_for_each_nested] of [get_port_list_handler]; the result is
    [None] when the body leaves the handler with [return NL_SKIP], and the
    list built when the loop runs to its end. *)
Fixpoint port_list_loop (items : list (nested port_attrs))
    (tmp_list : list team_port) : M (option (list team_port)) :=
  match items with
  | [] => ret (Some tmp_list)
  | nl_port :: rest =>
      match nla_parse_nested nl_port with
      | None => ret None
      | Some attrs =>
          match TEAM_ATTR_PORT_IFINDEX attrs with
          | None => ret None
          | Some ifindex_attr =>
              port <- call c_malloc ;;
              if port =? 0 then ret None
              else port_list_loop rest
                     (list_add tmp_list (fill_port ifindex_attr attrs))
          end
      end
  end.

Definition get_port_list_handler (msg : nl_msg) : M nl_cb_action :=
  let tmp_list := [] in
  let team_ifindex :=
    match TEAM_ATTR_TEAM_IFINDEX msg with
    | Some a => nla_get_u32 a
    | None => 0
    end in
  h <- get_th ;;
  if negb (team_ifindex =? th_ifindex h) then ret NL_SKIP
  else
    match TEAM_ATTR_LIST_PORT msg with
    | None => ret NL_SKIP
    | Some items =>
        r <- port_list_loop items tmp_list ;;
        match r with
        | None => ret NL_SKIP
        | Some tmp_list =>
            flush_port_list ;;;
            modify_th (fun h =>
              set_port_list (list_move_nodes (th_port_list h) tmp_list) h) ;;;
            set_call_change_handlers TEAM_PORT_CHANGE ;;;
            ret NL_SKIP
        end
    end.

Definition get_port_list : M Z :=
  msg <- call c_nlmsg_alloc ;;
  if msg =? 0 then ret (- ENOMEM)
  else
    h <- get_th ;;
    call (c_genlmsg_put (th_family h) TEAM_CMD_PORT_LIST_GET) ;;;
    r <- call (c_nla_put_u32 (th_ifindex h)) ;;
    if r <? 0 then call c_nlmsg_free ;;; ret (- ENOBUFS)
    else
      err <- send_and_recv get_port_list_handler ;;
      if negb (err =? 0) then ret err
      else check_call_change_handlers TEAM_PORT_CHANGE ;;; ret 0.

(** ** Options (libteam.c, SECTION: Options) *)

Definition flush_option_list : M unit := modify_th (set_option_list []).

(** The four bytes of a [__u32], lowest first. *)
Definition bytes_of_u32 (v : Z) : list Z :=
  [v mod 256; (v / 256) mod 256; (v / 65536) mod 256; (v / 16777216) mod 256].

(** The bytes of a C string, with its terminator. *)
Definition bytes_of_str (str : string) : list Z :=
  map uchar (list_ascii_of_string (strcpy str)) ++ [0].

Definition strlen (str : string) : Z := Z.of_nat (String.length (strcpy str)).

Definition memcpy (src : list Z) (n : Z) : list Z := firstn (Z.to_nat n) src.

(** [NULL] when one of the three allocations fails. *)
Definition create_option (name : string) (opt_type : team_option_type)
    (data : list Z) (data_size : Z) (changed : bool)
  : M (option team_option) :=
  option <- call c_malloc ;;
  if option =? 0 then ret None
  else
    option_name <- call c_malloc ;;
    if option_name =? 0 then ret None
    else
      option_data <- call c_malloc ;;
      if option_data =? 0 then ret None
      else ret (Some (mk_team_option opt_type (strcpy name)
                        (memcpy data data_size) changed)).

Fixpoint __find_option (opt_head : list team_option) (name : string)
  : option team_option :=
  match opt_head with
  | [] => None
  | option :: rest =>
      if strcmp (option_name option) name =? 0 then Some option
      else __find_option rest name
  end.

(** [nla_for_each_nested] of [get_options_handler]: [None] for
    [return NL_SKIP] in the body, a recursive call on the same [tmp_list]
    for [continue]. [list_add] on the result of [create_option] is not
    guarded: it dereferences NULL when the allocation failed. *)
Fixpoint option_list_loop (items : list (nested option_attrs))
    (tmp_list : list team_option) : M (option (list team_option)) :=
  match items with
  | [] => ret (Some tmp_list)
  | nl_option :: rest =>
      match nla_parse_nested nl_option with
      | None => ret None
      | Some attrs =>
          match TEAM_ATTR_OPTION_NAME attrs, TEAM_ATTR_OPTION_TYPE attrs,
                TEAM_ATTR_OPTION_DATA attrs with
          | Some name_attr, Some type_attr, Some data_attr =>
              let name := nla_get_string name_attr in
              match __find_option tmp_list name with
              | Some _ => option_list_loop rest tmp_list
              | None =>
                  let changed :=
                    match TEAM_ATTR_OPTION_CHANGED attrs with
                    | Some _ => true
                    | None => false
                    end in
                  let nla_type := to_int (nla_get_u32 type_attr) in
                  if nla_type =? NLA_U32 then
                    let arg := nla_get_u32 data_attr in
                    option <- create_option name TEAM_OPTION_TYPE_U32
                                (bytes_of_u32 arg) 4 changed ;;
                    match option with
                    | None => fault
                    | Some o => option_list_loop rest (list_add tmp_list o)
                    end
                  else if nla_type =? NLA_STRING then
                    let str := nla_get_string data_attr in
                    option <- create_option name TEAM_OPTION_TYPE_STRING
                                (bytes_of_str str) (strlen str + 1) changed ;;
                    match option with
                    | None => fault
                    | Some o => option_list_loop rest (list_add tmp_list o)
                    end
                  else option_list_loop rest tmp_list
              end
          | _, _, _ => ret None
          end
      end
  end.

Definition get_options_handler (msg : nl_msg) : M nl_cb_action :=
  let tmp_list := [] in
  let team_ifindex :=
    match TEAM_ATTR_TEAM_IFINDEX msg with
    | Some a => nla_get_u32 a
    | None => 0
    end in
  h <- get_th ;;
  if negb (team_ifindex =? th_ifindex h) then ret NL_SKIP
  else
    match TEAM_ATTR_LIST_OPTION msg with
    | None => ret NL_SKIP
    | Some items =>
        r <- option_list_loop items tmp_list ;;
        match r with
        | None => ret NL_SKIP
        | Some tmp_list =>
            flush_option_list ;;;
            modify_th (fun h =>
              set_option_list
                (list_move_nodes (th_option_list h) tmp_list) h) ;;;
            set_call_change_handlers TEAM_OPTION_CHANGE ;;;
            ret NL_SKIP
        end
    end.

Definition get_options : M Z :=
  msg <- call c_nlmsg_alloc ;;
  if msg =? 0 then ret (- ENOMEM)
  else
    h <- get_th ;;
    call (c_genlmsg_put (th_family h) TEAM_CMD_OPTIONS_GET) ;;;
    r <- call (c_nla_put_u32 (th_ifindex h)) ;;
    if r <? 0 then call c_nlmsg_free ;;; ret (- ENOBUFS)
    else
      err <- send_and_recv get_options_handler ;;
      if negb (err =? 0) then ret err
      else check_call_change_handlers TEAM_OPTION_CHANGE ;;; ret 0.

Definition team_get_option_by_name (name : string) : M (option team_option) :=
  h <- get_th ;; ret (__find_option (th_option_list h) name).

(** ** Context functions (libteam.c, SECTION: Context functions) *)

Definition event_handler (msg : nl_msg) : M nl_cb_action :=
  match cmd msg with
  | TEAM_CMD_PORT_LIST_GET => get_port_list_handler msg
  | TEAM_CMD_OPTIONS_GET => get_options_handler msg
  | _ => ret NL_SKIP
  end.

Definition team_get_log_priority : M Z :=
  h <- get_th ;; ret (th_log_priority h).

Definition team_set_log_priority (priority : Z) : M unit :=
  modify_th (set_log_priority priority).

(** The result tells whether a handle is returned; it is then the [th] of
    the state. [memset] zeroes it; the three lists start empty. *)
Definition team_alloc : M bool :=
  p <- call c_malloc ;;
  if p =? 0 then ret false
  else
    modify_th (fun _ => mk_team_handle 0 0 0 [] [] [] 0 0) ;;;
    modify_th (set_log_priority LOG_ERR) ;;;
    s <- get ;;
    match environ_TEAM_LOG s with
    | Some env => team_set_log_priority (log_priority env)
    | None => ret tt
    end ;;;
    sk <- call c_nl_socket_alloc ;;
    if sk =? 0 then ret false
    else
      sk_event <- call c_nl_socket_alloc ;;
      if sk_event =? 0 then call (c_nl_socket_free nl_sock) ;;; ret false
      else
        cli <- call c_nl_cli_alloc_socket ;;
        if cli =? 0 then
          call (c_nl_socket_free nl_sock_event) ;;;
          call (c_nl_socket_free nl_sock) ;;; ret false
        else
          err <- call c_nl_cli_connect ;;
          if negb (err =? 0) then
            call (c_nl_socket_free nl_cli_sock) ;;;
            call (c_nl_socket_free nl_sock_event) ;;;
            call (c_nl_socket_free nl_sock) ;;; ret false
          else
            cache <- call c_nl_cli_link_alloc_cache ;;
            if cache =? 0 then
              call (c_nl_socket_free nl_cli_sock) ;;;
              call (c_nl_socket_free nl_sock_event) ;;;
              call (c_nl_socket_free nl_sock) ;;; ret false
            else ret true.

Definition team_destroy : M Z :=
  h <- get_th ;;
  if th_ifindex h =? 0 then ret (- ENODEV)
  else
    link <- call c_rtnl_link_alloc ;;
    if link =? 0 then ret (- ENOMEM)
    else
      call (c_rtnl_link_set_ifindex (th_ifindex h)) ;;;
      err <- call c_rtnl_link_delete ;;
      call c_rtnl_link_put ;;;
      ret (- nl2syserr err).

Definition team_init (ifindex : Z) : M Z :=
  if ifindex =? 0 then ret (- ENOENT)
  else
    modify_th (set_ifindex ifindex) ;;;
    call (c_nl_socket_disable_seq_check nl_sock_event) ;;;
    err <- call (c_genl_connect nl_sock) ;;
    if negb (err =? 0) then ret (- nl2syserr err)
    else
      err <- call (c_genl_connect nl_sock_event) ;;
      if negb (err =? 0) then ret (- nl2syserr err)
      else
        fam <- call c_genl_ctrl_resolve ;;
        modify_th (set_family fam) ;;;
        if fam <? 0 then ret (- nl2syserr fam)
        else
          grp_id <- call c_genl_ctrl_resolve_grp ;;
          if grp_id <? 0 then ret (- nl2syserr grp_id)
          else
            err <- call (c_nl_socket_add_membership nl_sock_event grp_id) ;;
            if err <? 0 then ret (- nl2syserr err)
            else
              call (c_nl_socket_modify_err_cb nl_sock) ;;;
              call (c_nl_socket_modify_cb nl_sock) ;;;
              call (c_nl_socket_modify_cb nl_sock) ;;;
              call (c_nl_socket_modify_cb nl_sock_event) ;;;
              err <- get_port_list ;;
              if negb (err =? 0) then ret err
              else
                err <- get_options ;;
                if negb (err =? 0) then ret err
                else ret 0.


Definition run {A : Type} (m : M A) (s : state) : outcome A := m s.

(** ** Option values (libteam.c, SECTION: Options) *)

(** [*((__u32 * ) p)] on the block [p] points to: four bytes from its
    start, lowest first. The read does not stop at the end of the block:
    where the block is shorter it goes on in [past], the bytes that
    memory holds after the block. *)
Definition u32_at (block : list Z) (past : nat -> Z) : Z :=
  let byte (i : nat) := nth i block (past (i - List.length block)%nat) in
  byte 0%nat + 256 * byte 1%nat + 65536 * byte 2%nat
  + 16777216 * byte 3%nat.

(** The C string a [char *] to the block points to: the bytes before the
    first 0; nothing when the block holds no 0. *)
Fixpoint string_at (block : list Z) : option string :=
  match block with
  | [] => None
  | b :: rest =>
      if b =? 0 then Some EmptyString
      else match string_at rest with
           | Some str => Some (String (ascii_of_N (Z.to_N b)) str)
           | None => None
           end
  end.

Definition team_get_option_name (opt : team_option) : string :=
  option_name opt.

Definition team_get_option_type (opt : team_option) : team_option_type :=
  option_type opt.

(** [past]: what memory holds after the block [option->data]. *)
Definition team_get_option_value_u32 (opt : team_option) (past : nat -> Z)
  : Z :=
  u32_at (option_data opt) past.

(** The pointer [option->data], given by the block it points to. *)
Definition team_get_option_value_string (opt : team_option) : list Z :=
  option_data opt.

Definition team_is_option_changed (opt : team_option) : bool :=
  option_changed opt.

(** The result is the value returned and what is stored through
    [u32_ptr], if anything; [past] is what memory holds after the data
    block of the option found. *)
Definition team_get_option_value_by_name_u32 (name : string)
    (past : nat -> Z) : M (Z * option Z) :=
  opt <- team_get_option_by_name name ;;
  match opt with
  | None => ret (- ENOENT, None)
  | Some o => ret (0, Some (team_get_option_value_u32 o past))
  end.

(** The result is the value returned and the pointer stored through
    [str_ptr], if any. *)
Definition team_get_option_value_by_name_string (name : string)
  : M (Z * option (list Z)) :=
  opt <- team_get_option_by_name name ;;
  match opt with
  | None => ret (- ENOENT, None)
  | Some o => ret (0, Some (team_get_option_value_string o))
  end.

Definition team_get_mode_name : M (Z * option (list Z)) :=
  team_get_option_value_by_name_string "mode".

Definition team_get_active_port (past : nat -> Z) : M (Z * option Z) :=
  team_get_option_value_by_name_u32 "activeport" past.

(** ** Creating a device (libteam.c, SECTION: Context functions and
    SECTION: RTNL helpers) *)

(** The results of the route-netlink calls of [do_create], each made at
    most once in a run: a pointer result is 0 for NULL. *)
Record rtnl_results := mk_rtnl_results {
  rtnl_link_alloc_result : Z;
  nl_cache_refill_result : Z;
  rtnl_link_name2i_result : Z;
  rtnl_link_delete_result : Z;
  rtnl_link_set_type_result : Z;
  rtnl_link_add_result : Z }.

(** The requests [do_create] sends to the kernel: the deletion of the
    link of a name, the creation of a team link of a name (of a name the
    kernel chooses for NULL). *)
Inductive link_request :=
  | request_delete (name : string)
  | request_add (name : option string).

Definition team_ifname2ifindex (r : rtnl_results) : Z :=
  if negb (nl_cache_refill_result r =? 0) then 0
  else to_u32 (rtnl_link_name2i_result r).

(** [do_create]: the value returned and the requests sent, oldest
    first. *)
Definition do_create (r : rtnl_results) (team_name : option string)
    (recreate : bool) : Z * list link_request :=
  if rtnl_link_alloc_result r =? 0 then (- ENOMEM, [])
  else
    let set_type_and_add (sent : list link_request) :=
      let err := rtnl_link_set_type_result r in
      if negb (err =? 0) then (- nl2syserr err, sent)
      else
        let err := rtnl_link_add_result r in
        (- nl2syserr err, sent ++ [request_add team_name]) in
    match team_name with
    | Some name =>
        if recreate && negb (team_ifname2ifindex r =? 0) then
          let err := rtnl_link_delete_result r in
          if negb (err =? 0) then (- nl2syserr err, [request_delete name])
          else set_type_and_add [request_delete name]
        else set_type_and_add []
    | None => set_type_and_add []
    end.

Definition team_create (r : rtnl_results) (team_name : option string)
  : Z * list link_request :=
  do_create r team_name false.

Definition team_recreate (r : rtnl_results) (team_name : option string)
  : Z * list link_request :=
  do_create r team_name true.

(** ** Vocabulary of the statements *)

Fixpoint string_forall (p : ascii -> bool) (s : string) : bool :=
  match s with
  | EmptyString => true
  | String c r => p c && string_forall p r
  end.

(** The number a string of decimal digits writes. *)
Definition decimal_value (ds : string) : Z :=
  fold_left (fun acc c => 10 * acc + digit_val c) (list_ascii_of_string ds) 0.

Inductive sign := sign_none | sign_plus | sign_minus.

Definition sign_text (sg : sign) : string :=
  match sg with
  | sign_none => ""
  | sign_plus => "+"
  | sign_minus => "-"
  end.

Definition signed (sg : sign) (v : Z) : Z :=
  match sg with
  | sign_minus => - v
  | _ => v
  end.

(** What may follow the digits for [log_priority] to take the number: the
    end of the text or a white-space character. *)
Definition ends_number (rest : string) : Prop :=
  peek rest = NUL \/ isspace (peek rest) = true.

(** A text that starts with an integer: white space, a sign, digits, and
    then the end of the text or white space and anything. *)
Definition integer_text (s : string) : Prop :=
  exists ws sg ds rest,
    s = (ws ++ sign_text sg ++ ds ++ rest)%string /\
    string_forall isspace ws = true /\
    ds <> ""%string /\ string_forall isdigit ds = true /\
    ends_number rest.

(** The correspondence of [nl2syserr], as the specification lists it:
    object-exists, address-unavailable, not-found, interrupted, retry,
    not-a-socket, permission-denied, invalid-argument, out-of-memory,
    address-family-unsupported, protocol-mismatch, operation-unsupported,
    operation-not-permitted, device-busy, value-out-of-range,
    no-such-device. *)
Definition nl_error_table : list (Z * Z) :=
  [ (NLE_EXIST, EEXIST); (NLE_NOADDR, EADDRNOTAVAIL);
    (NLE_OBJ_NOTFOUND, ENOENT); (NLE_INTR, EINTR); (NLE_AGAIN, EAGAIN);
    (NLE_BAD_SOCK, ENOTSOCK); (NLE_NOACCESS, EACCES); (NLE_INVAL, EINVAL);
    (NLE_NOMEM, ENOMEM); (NLE_AF_NOSUPPORT, EAFNOSUPPORT);
    (NLE_PROTO_MISMATCH, EPROTONOSUPPORT); (NLE_OPNOTSUPP, EOPNOTSUPP);
    (NLE_PERM, EPERM); (NLE_BUSY, EBUSY); (NLE_RANGE, ERANGE);
    (NLE_NODEV, ENODEV) ].

(** The callback of the record at [handler] is the callback of a record
    of the collection. *)
Definition callback_registered (s : state) (handler : ptr) : Prop :=
  exists p,
    In p (th_change_handler_list (th s)) /\
    func (mem s p) = func (mem s handler).

(** The message is not of the device the handle is bound to: its device
    index differs from [th->ifindex], or it has none while the handle is
    bound (an index that is not 0). *)
Definition device_mismatch (msg : nl_msg) (h : team_handle) : Prop :=
  (exists a, TEAM_ATTR_TEAM_IFINDEX msg = Some a /\
             nla_get_u32 a <> th_ifindex h) \/
  (TEAM_ATTR_TEAM_IFINDEX msg = None /\ th_ifindex h <> 0).

Definition present {A : Type} (slot : option A) : bool :=
  match slot with
  | Some _ => true
  | None => false
  end.

(** The port an item stands for, field by field. *)
Definition port_of_item (item : nested port_attrs) (port : team_port) : Prop :=
  exists attrs a,
    item = nested_table attrs /\
    TEAM_ATTR_PORT_IFINDEX attrs = Some a /\
    port_ifindex port = nla_get_u32 a /\
    port_speed port =
      match TEAM_ATTR_PORT_SPEED attrs with
      | Some sp => nla_get_u32 sp
      | None => 0
      end /\
    port_duplex port =
      match TEAM_ATTR_PORT_DUPLEX attrs with
      | Some d => nla_get_u8 d
      | None => 0
      end /\
    port_linkup port = present (TEAM_ATTR_PORT_LINKUP attrs) /\
    port_changed port = present (TEAM_ATTR_PORT_CHANGED attrs).

Definition port_item_lacks_ifindex (item : nested port_attrs) : Prop :=
  exists attrs, item = nested_table attrs /\
                TEAM_ATTR_PORT_IFINDEX attrs = None.

Definition port_item_complete (item : nested port_attrs) : Prop :=
  exists attrs a, item = nested_table attrs /\
                  TEAM_ATTR_PORT_IFINDEX attrs = Some a.

(** Every allocation of the run succeeds. *)
Definition malloc_succeeds (s : state) : Prop :=
  forall t, oracle s (t ++ [c_malloc]) <> 0.

(** The option an item stands for, by the schema of the wire protocol:
    its name, the type its tag names, the data read by that type, and
    the changed flag by presence; none for an item the library does not
    take (a malformed item, a missing attribute, an unknown tag). *)
Definition decode_option_item (item : nested option_attrs)
  : option team_option :=
  match item with
  | nested_malformed => None
  | nested_table attrs =>
      match TEAM_ATTR_OPTION_NAME attrs, TEAM_ATTR_OPTION_TYPE attrs,
            TEAM_ATTR_OPTION_DATA attrs with
      | Some n, Some t, Some d =>
          if to_int (nla_get_u32 t) =? NLA_U32 then
            Some (mk_team_option TEAM_OPTION_TYPE_U32
                    (strcpy (nla_get_string n))
                    (bytes_of_u32 (nla_get_u32 d))
                    (present (TEAM_ATTR_OPTION_CHANGED attrs)))
          else if to_int (nla_get_u32 t) =? NLA_STRING then
            Some (mk_team_option TEAM_OPTION_TYPE_STRING
                    (strcpy (nla_get_string n))
                    (bytes_of_str (nla_get_string d))
                    (present (TEAM_ATTR_OPTION_CHANGED attrs)))
          else None
      | _, _, _ => None
      end
  end.

Definition decodable_options (items : list (nested option_attrs))
  : list team_option :=
  flat_map (fun item => match decode_option_item item with
                        | Some o => [o]
                        | None => []
                        end) items.

Definition named (n : string) (o : team_option) : bool :=
  String.eqb (option_name o) n.

(** The uniqueness rule of the specification: an option whose name is
    already in the collection is dropped, any other goes last. *)
Definition keep_first (acc : list team_option) (o : team_option)
  : list team_option :=
  if existsb (named (option_name o)) acc then acc else acc ++ [o].

Definition first_of_each_name (l : list team_option) : list team_option :=
  fold_left keep_first l [].

Definition option_item_complete (item : nested option_attrs) : Prop :=
  exists attrs n t d,
    item = nested_table attrs /\
    TEAM_ATTR_OPTION_NAME attrs = Some n /\
    TEAM_ATTR_OPTION_TYPE attrs = Some t /\
    TEAM_ATTR_OPTION_DATA attrs = Some d.

Definition option_item_lacks_attr (item : nested option_attrs) : Prop :=
  exists attrs,
    item = nested_table attrs /\
    (TEAM_ATTR_OPTION_NAME attrs = None \/
     TEAM_ATTR_OPTION_TYPE attrs = None \/
     TEAM_ATTR_OPTION_DATA attrs = None).

Definition names (l : list team_option) : list string := map option_name l.

(** A stored name is a C string: no NUL inside. *)
Definition name_ok (o : team_option) : Prop :=
  strcpy (option_name o) = option_name o.

(** The message carries the device index the handle is bound to. *)
Definition device_match (msg : nl_msg) (h : team_handle) : Prop :=
  exists a, TEAM_ATTR_TEAM_IFINDEX msg = Some a /\
            nla_get_u32 a = th_ifindex h.





(** The fields that say which device the handle is bound to and who
    listens: none of them is a registry. *)
Definition same_device (h h' : team_handle) : Prop :=
  th_family h' = th_family h /\
  th_ifindex h' = th_ifindex h /\
  th_change_handler_list h' = th_change_handler_list h /\
  th_log_priority h' = th_log_priority h.

(** Every category pending in [h] is pending in [h']. *)
Definition pending_kept (h h' : team_handle) : Prop :=
  Z.land (th_pending_type_mask h) (th_pending_type_mask h') =
  th_pending_type_mask h.

(** What decoding a message may change of the world: the handle, and the
    trace, which gains allocations and nothing else. *)
Definition decoding_only (s s' : state) : Prop :=
  exists k,
    s' = set_th (th s') (set_trace (trace s ++ repeat c_malloc k) s).

(** From [s] to [s'] messages were decoded and nothing else happened. *)
Definition decoded_from (s s' : state) : Prop :=
  decoding_only s s' /\
  same_device (th s) (th s') /\
  th_nl_sock_err (th s') = th_nl_sock_err (th s) /\
  pending_kept (th s) (th s').



(** What a client does to the collection of handlers, one call after
    the other. *)
Inductive registry_op :=
  | op_register (handler : ptr)
  | op_unregister (handler : ptr).

Fixpoint registry_ops (ops : list registry_op) : M unit :=
  match ops with
  | [] => ret tt
  | op_register handler :: rest =>
      team_change_handler_register handler ;;; registry_ops rest
  | op_unregister handler :: rest =>
      team_change_handler_unregister handler ;;; registry_ops rest
  end.

(** ** Sample inputs *)

(** A world before [team_alloc], with TEAM_LOG set to [env]: every call
    returns 1, but [nl_cli_connect], which returns 0. *)
Definition TEAM_LOG_state (env : option string) : state :=
  mk_state (mk_team_handle 0 0 0 [] [] [] 0 0)
    (fun _ => mk_team_change_handler O O 0) env [] []
    (fun t => match t with
              | [c_malloc; c_nl_socket_alloc; c_nl_socket_alloc;
                 c_nl_cli_alloc_socket; c_nl_cli_connect] => 0
              | _ => 1
              end) [].

(** A handle with two registered handlers, the one at address 10 for
    PORT, the one at address 20 for OPTION, and nothing pending. *)
Definition two_handlers_state : state :=
  mk_state (mk_team_handle 0 0 4 [] [] [10%nat; 20%nat] 0 LOG_ERR)
    (fun p => if Nat.eqb p 10
              then mk_team_change_handler 100%nat 101%nat TEAM_PORT_CHANGE
              else mk_team_change_handler 200%nat 201%nat TEAM_OPTION_CHANGE)
    None [] [] (fun _ => 1) [].

Definition u32_attr (v : Z) : nlattr := mk_nlattr v v "".
Definition string_attr (str : string) : nlattr := mk_nlattr 0 0 str.
Definition flag_attr : nlattr := mk_nlattr 0 0 "".

(** A handle bound to the device of index 5, in a world where every call
    returns 1. *)
Definition bound_state : state :=
  mk_state (mk_team_handle 0 1 5 [] [] [] 0 LOG_ERR)
    (fun _ => mk_team_change_handler O O 0) None [] [] (fun _ => 1) [].

Definition port_item_7 : nested port_attrs :=
  nested_table (mk_port_attrs (Some (u32_attr 7)) None (Some flag_attr)
                  (Some (u32_attr 1000)) None).

Definition port_item_without_ifindex : nested port_attrs :=
  nested_table (mk_port_attrs None None (Some flag_attr)
                  (Some (u32_attr 100)) None).

Definition port_item_9 : nested port_attrs :=
  nested_table (mk_port_attrs (Some (u32_attr 9)) (Some flag_attr) None
                  None (Some (u32_attr 1))).

Definition port_list_msg (ifindex : Z) (items : list (nested port_attrs))
  : nl_msg :=
  mk_nl_msg TEAM_CMD_PORT_LIST_GET (Some (u32_attr ifindex)) None (Some items).

Definition option_item (name : string) (nla_type : Z) (data : nlattr)
  : nested option_attrs :=
  nested_table (mk_option_attrs (Some (string_attr name)) None
                  (Some (u32_attr nla_type)) (Some data)).

Definition option_item_without_data (name : string) : nested option_attrs :=
  nested_table (mk_option_attrs (Some (string_attr name)) None
                  (Some (u32_attr NLA_U32)) None).

Definition option_list_msg (ifindex : Z)
    (items : list (nested option_attrs)) : nl_msg :=
  mk_nl_msg TEAM_CMD_OPTIONS_GET (Some (u32_attr ifindex)) (Some items) None.

(** The reply to a request is an error of the kernel. *)
Definition failing_state : state :=
  mk_state (mk_team_handle 0 1 5 [] [] [] 0 LOG_ERR)
    (fun _ => mk_team_change_handler O O 0) None [[nl_error (-19)]] []
    (fun _ => 1) [].

(** A handle bound to the device of index 5 whose registries hold the
    port 3 and the option [mode], in a world where every call returns
    1. *)
Definition registry_state : state :=
  mk_state
    (mk_team_handle 0 1 5 [mk_team_port 3 100 1 true false]
       [mk_team_option TEAM_OPTION_TYPE_STRING "mode" (bytes_of_str "rr")
          false] [] 0 LOG_ERR)
    (fun _ => mk_team_change_handler O O 0) None [] [] (fun _ => 1) [].





(** The state [team_alloc] leaves when TEAM_LOG is not set. *)
Definition fresh_state : state :=
  match run team_alloc (TEAM_LOG_state None) with
  | Done _ s => s
  | _ => TEAM_LOG_state None
  end.

(** A device named as asked exists (index 3); the kernel refuses to
    delete it ([-NLE_BUSY]). *)
Definition busy_device : rtnl_results := mk_rtnl_results 1 0 3 (-25) 0 0.

(** A device named as asked exists; it is deleted, and the creation is
    then refused ([-NLE_PERM]). *)
Definition refused_creation : rtnl_results := mk_rtnl_results 1 0 3 0 0 (-28).

Definition sample_options : list (nested option_attrs) :=
  [ option_item "activeport" NLA_U32 (u32_attr 42);
    option_item "mode" NLA_STRING (string_attr "rr");
    option_item "mode" NLA_STRING (string_attr "activebackup") ].




(** ** Tactics for running the monad *)

Ltac unfold_monad :=
  unfold run, bind, ret, get, get_th, modify_th, call, fault, block in *.

Ltac in_list :=
  repeat match goal with
         | H : In _ [] |- _ => destruct H
         | H : In _ (_ :: _) |- _ => destruct H as [H|H]
         | H : In _ (_ ++ _) |- _ =>
             apply in_app_or in H; destruct H as [H|H]
         | H : request_delete _ = request_delete _ |- _ =>
             inversion H; clear H; subst
         | H : request_add _ = request_add _ |- _ =>
             inversion H; clear H; subst
         | H : request_delete _ = request_add _ |- _ => discriminate H
         | H : request_add _ = request_delete _ |- _ => discriminate H
         end.

Ltac case_if :=
  match goal with
  | H : context [if ?c then _ else _] |- _ => destruct c eqn:?
  | |- context [if ?c then _ else _] => destruct c eqn:?
  end.




(** * Properties *)

(** ** C integers and characters *)

Lemma to_int_id (x : Z) : INT_MIN <= x <= INT_MAX -> to_int x = x.
Proof.
  unfold to_int, INT_MIN, INT_MAX. intros H.
  rewrite Z.mod_small by lia. lia.
Qed.

Lemma saturate_long_id (x : Z) :
  LONG_MIN <= x <= LONG_MAX -> saturate_long x = x.
Proof.
  unfold saturate_long. intros H.
  destruct (Z.ltb_spec x LONG_MIN); [lia|].
  destruct (Z.ltb_spec LONG_MAX x); [lia|reflexivity].
Qed.

Lemma uchar_inj (a b : ascii) : uchar a = uchar b -> a = b.
Proof.
  unfold uchar. intros H. apply N2Z.inj in H.
  rewrite <- (ascii_N_embedding a), <- (ascii_N_embedding b). now rewrite H.
Qed.

Lemma uchar_NUL : uchar NUL = 0.
Proof. reflexivity. Qed.

Lemma isdigit_not_space (c : ascii) : isdigit c = true -> isspace c = false.
Proof.
  unfold isdigit, isspace. intros H.
  apply andb_true_iff in H. destruct H as [H1 H2].
  apply Z.leb_le in H1. apply Z.leb_le in H2.
  apply orb_false_iff. split.
  - apply Z.eqb_neq. lia.
  - apply andb_false_iff. right. apply Z.leb_gt. lia.
Qed.

Lemma isdigit_not_sign (c : ascii) :
  isdigit c = true -> Ascii.eqb c "-" = false /\ Ascii.eqb c "+" = false.
Proof.
  intros H. split.
  - destruct (Ascii.eqb_spec c "-"); [subst; discriminate H|reflexivity].
  - destruct (Ascii.eqb_spec c "+"); [subst; discriminate H|reflexivity].
Qed.

Lemma isdigit_not_NUL (c : ascii) : isdigit c = true -> Ascii.eqb c NUL = false.
Proof.
  intros H.
  destruct (Ascii.eqb_spec c NUL); [subst; discriminate H|reflexivity].
Qed.

(** ** [strtol] and [strncmp] *)

Lemma skip_spaces_stop (t : string) :
  isspace (peek t) = false -> skip_spaces t = t.
Proof. destruct t as [|c r]; simpl; intros H; [reflexivity|now rewrite H]. Qed.

Lemma skip_spaces_app (ws t : string) :
  string_forall isspace ws = true -> isspace (peek t) = false ->
  skip_spaces (ws ++ t) = t.
Proof.
  induction ws as [|c ws IH]; simpl; intros Hws Ht.
  - now apply skip_spaces_stop.
  - apply andb_true_iff in Hws. destruct Hws as [Hc Hws].
    rewrite Hc. now apply IH.
Qed.

Lemma skip_spaces_split (s : string) :
  exists ws,
    s = (ws ++ skip_spaces s)%string /\ string_forall isspace ws = true.
Proof.
  induction s as [|c s IH]; simpl.
  - exists ""%string. now split.
  - destruct (isspace c) eqn:Hc.
    + destruct IH as (ws & Hs & Hws). exists (String c ws). simpl. split.
      * now rewrite <- Hs.
      * now rewrite Hc, Hws.
    + exists ""%string. now split.
Qed.

Lemma strtol_digits_app (ds rest : string) (acc : Z) :
  string_forall isdigit ds = true -> isdigit (peek rest) = false ->
  strtol_digits acc (ds ++ rest) =
  (fold_left (fun a c => 10 * a + digit_val c) (list_ascii_of_string ds) acc,
   rest).
Proof.
  revert acc. induction ds as [|c ds IH]; simpl; intros acc Hds Hrest.
  - destruct rest as [|c r]; simpl in *; [reflexivity|now rewrite Hrest].
  - apply andb_true_iff in Hds. destruct Hds as [Hc Hds].
    rewrite Hc. now apply IH.
Qed.

Lemma strtol_digits_split (body : string) (acc : Z) :
  exists ds,
    body = (ds ++ snd (strtol_digits acc body))%string /\
    string_forall isdigit ds = true /\
    (isdigit (peek body) = true -> ds <> ""%string).
Proof.
  revert acc. induction body as [|c body IH]; simpl; intros acc.
  - exists ""%string. repeat split. discriminate.
  - destruct (isdigit c) eqn:Hc.
    + destruct (IH (10 * acc + digit_val c)) as (ds & Hb & Hds & _).
      exists (String c ds). repeat split.
      * cbn [append]. f_equal. exact Hb.
      * cbn [string_forall]. now rewrite Hc, Hds.
      * discriminate.
    + exists ""%string. repeat split. discriminate.
Qed.

Lemma peek_cons (s : string) (c : ascii) :
  peek s = c -> c <> NUL -> s = String c (next s).
Proof. destruct s; simpl; intros H Hc; congruence. Qed.

Lemma strncmp_prefix (t s : string) :
  string_forall (fun c => negb (Ascii.eqb c NUL)) t = true ->
  (strncmp s t (String.length t) =? 0) = prefix t s.
Proof.
  revert s. induction t as [|a t IH]; intros s Ht.
  - now destruct s.
  - simpl in Ht. apply andb_true_iff in Ht. destruct Ht as [Ha Ht].
    apply negb_true_iff in Ha.
    destruct s as [|b s]; cbn [strncmp peek next String.length prefix].
    + rewrite (Ascii.eqb_sym NUL a), Ha. apply Z.eqb_neq. intros H.
      assert (E : uchar a = uchar NUL) by lia.
      apply uchar_inj in E. subst a. discriminate Ha.
    + destruct (Ascii.eqb_spec b a) as [->|Hba].
      * rewrite Ha. destruct (ascii_dec a a); [now apply IH|congruence].
      * destruct (ascii_dec a b); [congruence|].
        apply Z.eqb_neq. intros H. apply Hba, uchar_inj. lia.
Qed.

Lemma ends_number_not_digit (rest : string) :
  ends_number rest -> isdigit (peek rest) = false.
Proof.
  intros [H|H].
  - now rewrite H.
  - destruct (isdigit (peek rest)) eqn:E; [|reflexivity].
    apply isdigit_not_space in E. congruence.
Qed.

Lemma ends_number_test (rest : string) :
  ends_number rest <-> Ascii.eqb (peek rest) NUL || isspace (peek rest) = true.
Proof.
  unfold ends_number. rewrite orb_true_iff.
  split; intros [H|H]; auto; left.
  - rewrite H. apply Ascii.eqb_refl.
  - now apply Ascii.eqb_eq.
Qed.

Lemma strtol_integer (ws : string) (sg : sign) (ds rest : string) :
  string_forall isspace ws = true ->
  ds <> ""%string -> string_forall isdigit ds = true ->
  ends_number rest ->
  strtol (ws ++ sign_text sg ++ ds ++ rest) =
  (saturate_long (signed sg (decimal_value ds)), rest).
Proof.
  intros Hws Hne Hds Hrest.
  apply ends_number_not_digit in Hrest.
  destruct ds as [|d ds']; [congruence|].
  assert (Hd : isdigit d = true).
  { simpl in Hds. now apply andb_true_iff in Hds. }
  destruct (isdigit_not_sign d Hd) as [Hm Hp].
  unfold strtol, decimal_value.
  destruct sg; cbn [sign_text append].
  - rewrite skip_spaces_app by (auto using isdigit_not_space).
    cbn [peek]. rewrite Hm, Hp. cbn [peek]. rewrite Hd.
    change (String d (ds' ++ rest)) with (String d ds' ++ rest)%string.
    now rewrite strtol_digits_app.
  - rewrite skip_spaces_app by (auto using isdigit_not_space).
    cbn [peek next].
    change (Ascii.eqb "+" "-") with false.
    change (Ascii.eqb "+" "+") with true.
    cbn [peek]. rewrite Hd.
    change (String d (ds' ++ rest)) with (String d ds' ++ rest)%string.
    now rewrite strtol_digits_app.
  - rewrite skip_spaces_app by (auto using isdigit_not_space).
    cbn [peek next].
    change (Ascii.eqb "-" "-") with true.
    cbn [peek]. rewrite Hd.
    change (String d (ds' ++ rest)) with (String d ds' ++ rest)%string.
    now rewrite strtol_digits_app.
Qed.

(** When [strtol] stops on a character that is neither the terminator
    nor white space, the three [strncmp] decide. *)
Lemma log_priority_fallthrough (s : string) :
  Ascii.eqb (peek (snd (strtol s))) NUL || isspace (peek (snd (strtol s)))
    = false ->
  log_priority s =
  if prefix "err" s then LOG_ERR
  else if prefix "info" s then LOG_INFO
  else if prefix "debug" s then LOG_DEBUG
  else 0.
Proof.
  intros Hstop. unfold log_priority.
  destruct (strtol s) as [l endptr]. cbn [snd] in Hstop.
  rewrite Hstop.
  rewrite <- (strncmp_prefix "err"), <- (strncmp_prefix "info"),
    <- (strncmp_prefix "debug") by reflexivity.
  reflexivity.
Qed.

(** [strtol] either converts nothing, or the text starts with white
    space, a sign and digits, and [endptr] is what follows them. *)
Lemma strtol_shape (s : string) :
  strtol s = (0, s) \/
  exists ws sg ds,
    s = (ws ++ sign_text sg ++ ds ++ snd (strtol s))%string /\
    string_forall isspace ws = true /\
    ds <> ""%string /\ string_forall isdigit ds = true.
Proof.
  unfold strtol.
  destruct (skip_spaces_split s) as (ws & Hs & Hws).
  set (t := skip_spaces s) in *.
  destruct (Ascii.eqb_spec (peek t) "-") as [Hm|Hm].
  - destruct (isdigit (peek (next t))) eqn:Hd; [right|now left].
    destruct (strtol_digits_split (next t) 0) as (ds & Hb & Hds & Hne).
    destruct (strtol_digits 0 (next t)) as [v endptr]. cbn [snd] in *.
    exists ws, sign_minus, ds. repeat split; auto.
    rewrite Hs at 1. f_equal. cbn [sign_text append].
    rewrite <- Hb. apply peek_cons; [exact Hm|discriminate].
  - destruct (Ascii.eqb_spec (peek t) "+") as [Hp|Hp].
    + destruct (isdigit (peek (next t))) eqn:Hd; [right|now left].
      destruct (strtol_digits_split (next t) 0) as (ds & Hb & Hds & Hne).
      destruct (strtol_digits 0 (next t)) as [v endptr]. cbn [snd] in *.
      exists ws, sign_plus, ds. repeat split; auto.
      rewrite Hs at 1. f_equal. cbn [sign_text append].
      rewrite <- Hb. apply peek_cons; [exact Hp|discriminate].
    + destruct (isdigit (peek t)) eqn:Hd; [right|now left].
      destruct (strtol_digits_split t 0) as (ds & Hb & Hds & Hne).
      destruct (strtol_digits 0 t) as [v endptr]. cbn [snd] in *.
      exists ws, sign_none, ds. repeat split; auto.
      rewrite Hs at 1. f_equal. cbn [sign_text append]. exact Hb.
Qed.

Lemma log_priority_integer (ws : string) (sg : sign) (ds rest : string) :
  string_forall isspace ws = true ->
  ds <> ""%string -> string_forall isdigit ds = true ->
  ends_number rest ->
  log_priority (ws ++ sign_text sg ++ ds ++ rest) =
  to_int (saturate_long (signed sg (decimal_value ds))).
Proof.
  intros Hws Hne Hds Hrest. unfold log_priority.
  rewrite strtol_integer by assumption.
  apply ends_number_test in Hrest. now rewrite Hrest.
Qed.

Lemma log_priority_other (s : string) :
  ~ integer_text s ->
  prefix "err" s = false -> prefix "info" s = false ->
  prefix "debug" s = false ->
  log_priority s = 0.
Proof.
  intros Hint He Hi Hd.
  destruct (Ascii.eqb (peek (snd (strtol s))) NUL
            || isspace (peek (snd (strtol s)))) eqn:Hstop.
  - destruct (strtol_shape s) as [H0|(ws & sg & ds & Hs & Hws & Hne & Hds)].
    + unfold log_priority. rewrite H0 in *. cbn [snd] in Hstop.
      now rewrite Hstop.
    + exfalso. apply Hint. exists ws, sg, ds, (snd (strtol s)).
      repeat split; auto. now apply ends_number_test.
  - rewrite log_priority_fallthrough by assumption.
    now rewrite He, Hi, Hd.
Qed.

(** ** Running the monad *)

Lemma team_alloc_handle (s s' : state) :
  run team_alloc s = Done true s' ->
  th s' =
  mk_team_handle 0 0 0 [] [] [] 0
    match environ_TEAM_LOG s with
    | Some env => log_priority env
    | None => LOG_ERR
    end.
Proof.
  destruct s as [h m e rs re o t].
  unfold team_alloc, team_set_log_priority. unfold_monad.
  intros H. cbn in H.
  destruct e; cbn in H |- *;
    repeat (case_if; cbn in H; try discriminate H);
    inversion H; reflexivity.
Qed.

(** ** The translation of libnl errors *)

Lemma nl2syserr_other (n : Z) :
  INT_MIN <= n <= INT_MAX -> n <> 0 ->
  ~ In (Z.abs n) (map fst nl_error_table) ->
  nl2syserr n = EINVAL.
Proof.
  intros Hrange Hn Hnot.
  destruct (Z.eq_dec n INT_MIN) as [->|Hmin]; [reflexivity|].
  unfold nl2syserr, c_abs.
  rewrite to_int_id by (unfold INT_MIN, INT_MAX in *; lia).
  cbv zeta.
  destruct (Z.eqb_spec (Z.abs n) 0) as [E|_]; [lia|].
  repeat match goal with
         | |- context [Z.abs n =? ?c] =>
             destruct (Z.eqb_spec (Z.abs n) c) as [E|_];
             [exfalso; apply Hnot; rewrite E; simpl; tauto|]
         end.
  reflexivity.
Qed.

(** C5. The translation of transport errors is a function defined on
    every [int]: zero goes to zero; each of the sixteen libnl identifiers,
    with either sign, goes to the errno value the specification pairs it
    with, which is not zero; every other code goes to EINVAL. *)
Theorem nl2syserr_total_mapping :
  nl2syserr 0 = 0 /\
  Forall (fun p => nl2syserr (fst p) = snd p /\
                   nl2syserr (- fst p) = snd p /\ snd p <> 0)
         nl_error_table /\
  (forall n, INT_MIN <= n <= INT_MAX -> n <> 0 ->
             ~ In (Z.abs n) (map fst nl_error_table) ->
             nl2syserr n = EINVAL).
Proof.
  split; [reflexivity|]. split.
  - unfold nl_error_table.
    repeat (constructor; [cbn [fst snd]; repeat split; try reflexivity;
                          discriminate|]).
    constructor.
  - exact nl2syserr_other.
Qed.

Lemma nl2syserr_total_mapping_witness :
  INT_MIN <= -1000 <= INT_MAX /\ nl2syserr (-1000) = EINVAL.
Proof.
  assert (R : INT_MIN <= -1000 <= INT_MAX) by (unfold INT_MIN, INT_MAX; lia).
  split; [exact R|].
  apply (proj2 (proj2 nl2syserr_total_mapping)); [exact R|lia|].
  simpl. intros H. repeat (destruct H as [H|H]; [discriminate H|]). exact H.
Defined.

(** ** The priority read from TEAM_LOG *)

Lemma integer_text_stop (s : string) :
  integer_text s ->
  Ascii.eqb (peek (snd (strtol s))) NUL || isspace (peek (snd (strtol s)))
    = true.
Proof.
  intros (ws & sg & ds & rest & -> & Hws & Hne & Hds & Hrest).
  rewrite strtol_integer by assumption. cbn [snd].
  now apply ends_number_test.
Qed.

Lemma log_priority_token_prefix (rest : string) :
  log_priority ("err" ++ rest) = LOG_ERR /\
  log_priority ("info" ++ rest) = LOG_INFO /\
  log_priority ("debug" ++ rest) = LOG_DEBUG.
Proof.
  repeat split; rewrite log_priority_fallthrough; reflexivity.
Qed.

(** C7, as amended. The priority [team_alloc] takes from TEAM_LOG:
    - a text that starts with an integer (white space, a sign, decimal
      digits) followed by the end of the text or by a white-space
      character and anything gives that integer, converted to [long] with
      saturation and then to [int]; this is the integer itself when it
      fits an [int];
    - a text that starts with "err", "info" or "debug" gives LOG_ERR,
      LOG_INFO or LOG_DEBUG, whatever follows the token; so do the three
      tokens themselves;
    - every other text gives 0;
    - without TEAM_LOG the priority is LOG_ERR. *)
Theorem log_priority_cases :
  (forall ws sg ds rest,
      string_forall isspace ws = true ->
      ds <> ""%string -> string_forall isdigit ds = true ->
      ends_number rest ->
      log_priority (ws ++ sign_text sg ++ ds ++ rest) =
        to_int (saturate_long (signed sg (decimal_value ds))) /\
      (INT_MIN <= signed sg (decimal_value ds) <= INT_MAX ->
       log_priority (ws ++ sign_text sg ++ ds ++ rest) =
         signed sg (decimal_value ds))) /\
  (forall rest,
      log_priority ("err" ++ rest) = LOG_ERR /\
      log_priority ("info" ++ rest) = LOG_INFO /\
      log_priority ("debug" ++ rest) = LOG_DEBUG) /\
  (log_priority "err" = LOG_ERR /\ log_priority "info" = LOG_INFO /\
   log_priority "debug" = LOG_DEBUG) /\
  (forall s,
      ~ integer_text s ->
      prefix "err" s = false -> prefix "info" s = false ->
      prefix "debug" s = false ->
      log_priority s = 0) /\
  (forall s s',
      run team_alloc s = Done true s' ->
      th_log_priority (th s') =
        match environ_TEAM_LOG s with
        | Some env => log_priority env
        | None => LOG_ERR
        end).
Proof.
  split; [|split; [|split; [|split]]].
  - intros ws sg ds rest Hws Hne Hds Hrest.
    pose proof (log_priority_integer ws sg ds rest Hws Hne Hds Hrest) as E.
    split; [exact E|]. intros Hrange. rewrite E.
    rewrite saturate_long_id
      by (unfold INT_MIN, INT_MAX, LONG_MIN, LONG_MAX in *; lia).
    now apply to_int_id.
  - exact log_priority_token_prefix.
  - repeat split.
  - exact log_priority_other.
  - intros s s' H. now rewrite (team_alloc_handle s s' H).
Qed.

Lemma log_priority_cases_witness :
  log_priority " -42 x" = -42 /\
  log_priority "12abc" = 0 /\
  (exists s',
     run team_alloc (TEAM_LOG_state (Some "6"%string)) = Done true s' /\
     th_log_priority (th s') = 6).
Proof.
  destruct log_priority_cases as (Hint & _ & _ & Hother & Halloc).
  split; [|split].
  - apply (proj2 (Hint " "%string sign_minus "42"%string " x"%string
                    eq_refl ltac:(discriminate) eq_refl
                    (or_intror eq_refl))).
    vm_compute. split; discriminate.
  - apply Hother; try reflexivity.
    intros H. apply integer_text_stop in H. discriminate H.
  - eexists. split; [vm_compute; reflexivity|].
    apply (Halloc (TEAM_LOG_state (Some "6"%string))). vm_compute. reflexivity.
Defined.

(** C7, as stated, fails: "error" is none of the three tokens and
    "4294967299" parses fully as an integer, yet the first gives LOG_ERR
    instead of the lowest priority and the second gives 3. *)
Lemma log_priority_other_text_counterexample :
  log_priority "error" = LOG_ERR /\ LOG_ERR <> 0 /\
  "error"%string <> "err"%string /\ "error"%string <> "info"%string /\
  "error"%string <> "debug"%string /\ ~ integer_text "error" /\
  integer_text "4294967299" /\ log_priority "4294967299" = 3 /\
  decimal_value "4294967299" = 4294967299.
Proof.
  repeat split; try discriminate.
  - intros H. apply integer_text_stop in H. discriminate H.
  - exists ""%string, sign_none, "4294967299"%string, ""%string.
    repeat split; try discriminate. now left.
Qed.

(** ** The change-handler registry *)

Lemma find_change_handler_none (l : list ptr) (handler : ptr) :
  find_change_handler l handler = None <-> ~ In handler l.
Proof.
  induction l as [|p l IH]; simpl.
  - tauto.
  - destruct (Nat.eqb_spec p handler) as [->|Hne].
    + split; [discriminate|]. intros H. exfalso. apply H. now left.
    + destruct (find_change_handler l handler).
      * split; [discriminate|]. intros H. exfalso.
        assert (N : ~ In handler l) by tauto.
        apply IH in N. discriminate N.
      * split; [|reflexivity]. intros _ [E|H]; [congruence|].
        now apply (proj1 IH).
Qed.

Lemma find_change_handler_first (l1 l2 : list ptr) (handler : ptr) :
  ~ In handler l1 ->
  find_change_handler (l1 ++ handler :: l2) handler = Some (List.length l1).
Proof.
  induction l1 as [|p l1 IH]; simpl; intros Hnot.
  - now rewrite Nat.eqb_refl.
  - destruct (Nat.eqb_spec p handler) as [->|Hne]; [tauto|].
    rewrite IH by tauto. reflexivity.
Qed.

Lemma find_change_handler_some (l : list ptr) (handler : ptr) (i : nat) :
  find_change_handler l handler = Some i ->
  exists l1 l2,
    l = l1 ++ handler :: l2 /\ ~ In handler l1 /\ List.length l1 = i.
Proof.
  revert i. induction l as [|p l IH]; simpl; intros i H; [discriminate|].
  destruct (Nat.eqb_spec p handler) as [->|Hne].
  - inversion H. exists [], l. simpl. tauto.
  - destruct (find_change_handler l handler) as [j|]; [|discriminate].
    inversion H. destruct (IH j eq_refl) as (l1 & l2 & -> & Hnot & Hlen).
    exists (p :: l1), l2. simpl. repeat split; [|congruence].
    intros [E|E]; [congruence|tauto].
Qed.

Lemma list_del_middle {A : Type} (l1 l2 : list A) (x : A) :
  list_del (List.length l1) (l1 ++ x :: l2) = l1 ++ l2.
Proof. induction l1 as [|p l1 IH]; simpl; [reflexivity|now rewrite IH]. Qed.

Lemma state_trace_same (s : state) : set_trace (trace s ++ []) s = s.
Proof. rewrite app_nil_r. now destruct s. Qed.

Lemma call_change_handlers_run (fired : Z) (l : list ptr) (s : state) :
  run (call_change_handlers fired l) s =
  Done tt
    (set_trace
       (trace s ++
        map (fun p => c_func (func (mem s p)) (func_priv (mem s p))
                        (Z.land (type_mask (mem s p)) fired))
            (filter (fun p => negb (Z.land (type_mask (mem s p)) fired =? 0))
                    l)) s).
Proof.
  revert s. induction l as [|p l IH]; intros s.
  - cbn. now rewrite state_trace_same.
  - cbn [call_change_handlers filter]. unfold_monad.
    destruct (Z.land (type_mask (mem s p)) fired =? 0); cbn [negb].
    + apply IH.
    + unfold run in IH. rewrite IH. destruct s. cbn.
      now rewrite <- app_assoc.
Qed.

Lemma count_occ_filter_NoDup (f : ptr -> bool) (l : list ptr) (p : ptr) :
  NoDup l -> In p l ->
  count_occ Nat.eq_dec (filter f l) p = if f p then 1%nat else 0%nat.
Proof.
  induction l as [|q l IH]; intros Hnd Hin; [destruct Hin|].
  inversion Hnd as [|? ? Hq Hl]. subst.
  destruct Hin as [->|Hin].
  - assert (Z0 : count_occ Nat.eq_dec (filter f l) p = 0%nat).
    { apply count_occ_not_In. intros H. apply filter_In in H. tauto. }
    simpl. destruct (f p); simpl; [|exact Z0].
    destruct (Nat.eq_dec p p); [now rewrite Z0|congruence].
  - assert (Hne : q <> p) by (intros ->; tauto).
    simpl. destruct (f q); simpl; [|now apply IH].
    destruct (Nat.eq_dec q p); [congruence|now apply IH].
Qed.

Lemma register_present (s : state) (handler : ptr) :
  In handler (th_change_handler_list (th s)) ->
  run (team_change_handler_register handler) s = Done (- EEXIST) s.
Proof.
  intros Hin. unfold team_change_handler_register. unfold_monad.
  destruct (find_change_handler (th_change_handler_list (th s)) handler)
    eqn:E; [reflexivity|].
  apply find_change_handler_none in E. tauto.
Qed.

Lemma register_absent (s : state) (handler : ptr) :
  ~ In handler (th_change_handler_list (th s)) ->
  run (team_change_handler_register handler) s =
  let s1 := set_trace (trace s ++ [c_malloc]) s in
  if oracle s (trace s ++ [c_malloc]) =? 0 then Done (- ENOMEM) s1
  else Done 0 (set_th (set_change_handler_list
                         (th_change_handler_list (th s) ++ [handler]) (th s))
                 s1).
Proof.
  intros Hnot. unfold team_change_handler_register. unfold_monad.
  apply find_change_handler_none in Hnot. rewrite Hnot. cbn.
  destruct (oracle s (trace s ++ [c_malloc]) =? 0); reflexivity.
Qed.

Lemma unregister_absent (s : state) (handler : ptr) :
  ~ In handler (th_change_handler_list (th s)) ->
  run (team_change_handler_unregister handler) s = Done tt s.
Proof.
  intros Hnot. unfold team_change_handler_unregister. unfold_monad.
  apply find_change_handler_none in Hnot. now rewrite Hnot.
Qed.

Lemma unregister_present (s : state) (handler : ptr) (l1 l2 : list ptr) :
  th_change_handler_list (th s) = l1 ++ handler :: l2 ->
  ~ In handler l1 ->
  run (team_change_handler_unregister handler) s =
  Done tt (set_th (set_change_handler_list (l1 ++ l2) (th s)) s).
Proof.
  intros Hl Hnot. unfold team_change_handler_unregister.
  unfold_monad. rewrite Hl, find_change_handler_first by assumption.
  cbv beta. now rewrite Hl, list_del_middle.
Qed.

(** C6. A handler is the record the caller passes, known by its
    address ([find_change_handler] compares the pointers), not by the
    callback the record holds. Registering a handler that is already in
    the collection fails with -EEXIST and changes nothing; registering
    one that is not, when the allocation of its record succeeds, returns
    0 and appends exactly that handler to the collection (and returns
    -ENOMEM, the collection unchanged, when the allocation fails).
    Unregistering a handler that is not in the collection changes
    nothing; unregistering one that is removes exactly its record and
    keeps the others in their order. *)
Theorem change_handler_register_unregister (s : state) (handler : ptr) :
  let l := th_change_handler_list (th s) in
  (In handler l ->
   run (team_change_handler_register handler) s = Done (- EEXIST) s) /\
  (~ In handler l ->
   run (team_change_handler_register handler) s =
   let s1 := set_trace (trace s ++ [c_malloc]) s in
   if oracle s (trace s ++ [c_malloc]) =? 0 then Done (- ENOMEM) s1
   else Done 0 (set_th (set_change_handler_list (l ++ [handler]) (th s)) s1)) /\
  (~ In handler l ->
   run (team_change_handler_unregister handler) s = Done tt s) /\
  (forall l1 l2,
      l = l1 ++ handler :: l2 -> ~ In handler l1 ->
      run (team_change_handler_unregister handler) s =
      Done tt (set_th (set_change_handler_list (l1 ++ l2) (th s)) s)).
Proof.
  cbv zeta. split; [|split; [|split]].
  - apply register_present.
  - apply register_absent.
  - apply unregister_absent.
  - intros l1 l2. apply unregister_present.
Qed.

(** The collection stays free of repetitions. *)
Lemma change_handler_list_NoDup (s s' : state) (handler : ptr) :
  NoDup (th_change_handler_list (th s)) ->
  (forall r, run (team_change_handler_register handler) s = Done r s' ->
             NoDup (th_change_handler_list (th s'))) /\
  (run (team_change_handler_unregister handler) s = Done tt s' ->
   NoDup (th_change_handler_list (th s'))).
Proof.
  intros Hnd.
  pose proof (register_present s handler) as Hdup.
  pose proof (register_absent s handler) as Hnew.
  pose proof (unregister_absent s handler) as Habsent.
  pose proof (unregister_present s handler) as Hdel.
  destruct (in_dec Nat.eq_dec handler (th_change_handler_list (th s)))
    as [Hin|Hnot].
  - split.
    + intros r H. rewrite (Hdup Hin) in H. inversion H. now subst.
    + intros H. destruct (in_split _ _ Hin) as (l1 & l2 & Hl).
      assert (Hl1 : ~ In handler l1).
      { rewrite Hl in Hnd. apply NoDup_remove_2 in Hnd.
        intros Hi. apply Hnd. apply in_or_app. now left. }
      rewrite (Hdel l1 l2 Hl Hl1) in H. inversion H. cbn.
      rewrite Hl in Hnd. now apply NoDup_remove_1 in Hnd.
  - split.
    + intros r H. rewrite (Hnew Hnot) in H. cbv zeta in H.
      destruct (oracle s (trace s ++ [c_malloc]) =? 0);
        inversion H; cbn; [exact Hnd|].
      apply NoDup_app; [exact Hnd|repeat constructor; intros []|].
      intros a Ha [<-|[]]. tauto.
    + intros H. rewrite (Habsent Hnot) in H. inversion H. now subst.
Qed.

(** ** The dispatcher *)

Lemma check_call_change_handlers_run (M : Z) (s : state) :
  run (check_call_change_handlers M) s =
  Done tt
    (set_th
       (set_pending_type_mask
          (Z.land (th_pending_type_mask (th s)) (Z.lnot M)) (th s))
       (set_trace
          (trace s ++
           map (fun p => c_func (func (mem s p)) (func_priv (mem s p))
                           (Z.land (type_mask (mem s p))
                              (Z.land (th_pending_type_mask (th s)) M)))
               (filter (fun p => negb (Z.land (type_mask (mem s p))
                                         (Z.land (th_pending_type_mask (th s))
                                            M) =? 0))
                       (th_change_handler_list (th s)))) s)).
Proof.
  unfold check_call_change_handlers. unfold_monad.
  pose proof (call_change_handlers_run
                (Z.land (th_pending_type_mask (th s)) M)
                (th_change_handler_list (th s)) s) as E.
  unfold run in E. rewrite E. reflexivity.
Qed.


(** C4. A dispatch with settle mask [M] on pending mask [P] calls, in the
    order of registration, the handlers whose interest mask meets
    [P land M], each with the bits of its interest mask that are in
    [P land M], and no other handler; a handler is called once (the
    collection has no repetition). Afterwards the pending mask is [P]
    without the bits of [M]: the bits outside [M] stay pending. With a
    handler for PORT and one for OPTION and both categories made pending,
    one dispatch of both calls each handler once, with its own bit. *)
Theorem dispatch_calls_and_settles (s : state) (M : Z) :
  let P := th_pending_type_mask (th s) in
  let l := th_change_handler_list (th s) in
  let meets p := negb (Z.land (type_mask (mem s p)) (Z.land P M) =? 0) in
  let callback p :=
    c_func (func (mem s p)) (func_priv (mem s p))
           (Z.land (type_mask (mem s p)) (Z.land P M)) in
  (run (check_call_change_handlers M) s =
   Done tt
     (set_th (set_pending_type_mask (Z.land P (Z.lnot M)) (th s))
        (set_trace (trace s ++ map callback (filter meets l)) s))) /\
  (NoDup l ->
   forall p, In p l ->
     count_occ Nat.eq_dec (filter meets l) p =
     if meets p then 1%nat else 0%nat) /\
  (forall i, 0 <= i ->
     Z.testbit (Z.land P (Z.lnot M)) i =
     Z.testbit P i && negb (Z.testbit M i)) /\
  (forall port_handler option_handler,
      l = [port_handler; option_handler] ->
      type_mask (mem s port_handler) = TEAM_PORT_CHANGE ->
      type_mask (mem s option_handler) = TEAM_OPTION_CHANGE ->
      P = 0 ->
      run (set_call_change_handlers TEAM_PORT_CHANGE ;;;
           set_call_change_handlers TEAM_OPTION_CHANGE ;;;
           check_call_change_handlers TEAM_ANY_CHANGE) s =
      Done tt
        (set_trace
           (trace s ++
            [ c_func (func (mem s port_handler))
                (func_priv (mem s port_handler)) TEAM_PORT_CHANGE;
              c_func (func (mem s option_handler))
                (func_priv (mem s option_handler)) TEAM_OPTION_CHANGE ])
           s)).
Proof.
  cbv zeta. repeat split.
  - apply check_call_change_handlers_run.
  - intros Hnd p Hin. now apply count_occ_filter_NoDup.
  - intros i Hi. now rewrite Z.land_spec, Z.lnot_spec.
  - intros ph oh Hl Hp Ho HP.
    unfold set_call_change_handlers, check_call_change_handlers.
    unfold_monad. cbv beta.
    pose proof call_change_handlers_run as E. unfold run in E. rewrite E.
    destruct s as [h m e rs re o t]. destruct h.
    cbn [th mem trace set_th set_trace set_pending_type_mask
         th_change_handler_list th_pending_type_mask] in *.
    subst. cbn [filter]. rewrite Hp, Ho.
    change (Z.land (Z.lor (Z.lor 0 TEAM_PORT_CHANGE) TEAM_OPTION_CHANGE)
              TEAM_ANY_CHANGE) with 3.
    change (negb (Z.land TEAM_PORT_CHANGE 3 =? 0)) with true.
    change (negb (Z.land TEAM_OPTION_CHANGE 3 =? 0)) with true.
    cbn [map]. rewrite Hp, Ho. reflexivity.
Qed.

Lemma change_handler_register_unregister_witness :
  run (team_change_handler_register 10%nat) two_handlers_state =
    Done (- EEXIST) two_handlers_state /\
  run (team_change_handler_register 30%nat) two_handlers_state =
    Done 0 (set_th (set_change_handler_list [10%nat; 20%nat; 30%nat]
                      (th two_handlers_state))
              (set_trace [c_malloc] two_handlers_state)) /\
  run (team_change_handler_unregister 30%nat) two_handlers_state =
    Done tt two_handlers_state /\
  run (team_change_handler_unregister 10%nat) two_handlers_state =
    Done tt (set_th (set_change_handler_list [20%nat]
                       (th two_handlers_state)) two_handlers_state).
Proof.
  assert (N10 : ~ In 30%nat (th_change_handler_list (th two_handlers_state))).
  { simpl. intros [H|[H|[]]]; discriminate H. }
  split; [|split; [|split]].
  - apply (change_handler_register_unregister two_handlers_state 10%nat).
    simpl. now left.
  - exact (proj1 (proj2
      (change_handler_register_unregister two_handlers_state 30%nat)) N10).
  - exact (proj1 (proj2 (proj2
      (change_handler_register_unregister two_handlers_state 30%nat))) N10).
  - apply (proj2 (proj2 (proj2
      (change_handler_register_unregister two_handlers_state 10%nat)))
      [] [20%nat]); [reflexivity|intros []].
Defined.

(** The record at address 30 holds the callback, the context and the
    interest of the registered record at address 20: it registers with 0
    all the same, and a dispatch then calls the callback twice. *)
Lemma same_callback_registered_counterexample :
  callback_registered two_handlers_state 30%nat /\
  mem two_handlers_state 30%nat = mem two_handlers_state 20%nat /\
  run (team_change_handler_register 30%nat) two_handlers_state <>
    Done (- EEXIST) two_handlers_state /\
  (exists s',
     run (team_change_handler_register 30%nat) two_handlers_state =
       Done 0 s' /\
     th_change_handler_list (th s') = [10%nat; 20%nat; 30%nat]) /\
  (exists s',
     run (team_change_handler_register 30%nat ;;;
          set_call_change_handlers TEAM_OPTION_CHANGE ;;;
          check_call_change_handlers TEAM_ANY_CHANGE) two_handlers_state =
       Done tt s' /\
     trace s' = [c_malloc; c_func 200%nat 201%nat TEAM_OPTION_CHANGE;
                 c_func 200%nat 201%nat TEAM_OPTION_CHANGE]).
Proof.
  split; [|split; [|split; [|split]]].
  - exists 20%nat. split; [simpl; tauto|reflexivity].
  - reflexivity.
  - discriminate.
  - eexists. split; reflexivity.
  - unfold run, bind. cbn. eexists. split; reflexivity.
Qed.

Lemma dispatch_calls_and_settles_witness :
  count_occ Nat.eq_dec
    (filter (fun p => negb (Z.land (type_mask (mem two_handlers_state p))
                              (Z.land 0 TEAM_ANY_CHANGE) =? 0))
            [10%nat; 20%nat]) 10%nat = 0%nat /\
  Z.testbit (Z.land 0 (Z.lnot TEAM_ANY_CHANGE)) 1 = false /\
  run (set_call_change_handlers TEAM_PORT_CHANGE ;;;
       set_call_change_handlers TEAM_OPTION_CHANGE ;;;
       check_call_change_handlers TEAM_ANY_CHANGE) two_handlers_state =
  Done tt (set_trace [c_func 100%nat 101%nat TEAM_PORT_CHANGE;
                      c_func 200%nat 201%nat TEAM_OPTION_CHANGE]
             two_handlers_state).
Proof.
  destruct (dispatch_calls_and_settles two_handlers_state TEAM_ANY_CHANGE)
    as (_ & Hcount & Hbit & Htwo).
  split; [|split].
  - apply Hcount; [|simpl; now left].
    repeat constructor; simpl; intros H; repeat destruct H as [H|H];
      try discriminate H; exact H.
  - apply (Hbit 1). lia.
  - apply (Htwo 10%nat 20%nat); reflexivity.
Defined.

(** ** Decoding a port list *)

Lemma fill_port_fields (a : nlattr) (attrs : port_attrs) :
  TEAM_ATTR_PORT_IFINDEX attrs = Some a ->
  port_of_item (nested_table attrs) (fill_port a attrs).
Proof.
  intros Ha. exists attrs, a. split; [reflexivity|]. split; [exact Ha|].
  unfold fill_port.
  destruct (TEAM_ATTR_PORT_CHANGED attrs), (TEAM_ATTR_PORT_LINKUP attrs),
    (TEAM_ATTR_PORT_SPEED attrs), (TEAM_ATTR_PORT_DUPLEX attrs);
    cbn; repeat split.
Qed.

Lemma port_list_loop_run (items : list (nested port_attrs))
    (tmp : list team_port) (s : state) :
  exists r s',
    run (port_list_loop items tmp) s = Done r s' /\
    th s' = th s /\ oracle s' = oracle s /\
    (forall l, r = Some l ->
       exists ports, l = tmp ++ ports /\ Forall2 port_of_item items ports) /\
    (r = None ->
       Exists (fun item => ~ port_item_complete item) items \/
       ~ malloc_succeeds s).
Proof.
  revert tmp s. induction items as [|item items IH]; intros tmp s.
  - exists (Some tmp), s. cbn. repeat split.
    + intros l E. inversion E. exists []. now rewrite app_nil_r.
    + discriminate.
  - cbn [port_list_loop].
    destruct item as [|attrs]; cbn [nla_parse_nested].
    { exists None, s. cbn. repeat split; [discriminate|].
      intros _. left. constructor. intros (? & ? & E & _). discriminate E. }
    destruct (TEAM_ATTR_PORT_IFINDEX attrs) as [a|] eqn:Ha.
    2:{ exists None, s. cbn. repeat split; [discriminate|].
        intros _. left. constructor. intros (? & ? & E & E').
        inversion E. subst. congruence. }
    unfold_monad. cbv zeta.
    destruct (oracle s (trace s ++ [c_malloc]) =? 0) eqn:Hm.
    { exists None, (set_trace (trace s ++ [c_malloc]) s). cbn.
      repeat split; [discriminate|]. intros _. right. intros H.
      apply Z.eqb_eq in Hm. exact (H (trace s) Hm). }
    destruct (IH (list_add tmp (fill_port a attrs))
                 (set_trace (trace s ++ [c_malloc]) s))
      as (r & s' & Hrun & Hth & Hor & Hsome & Hnone).
    exists r, s'. unfold run in Hrun. rewrite Hrun.
    repeat split; [exact Hth|exact Hor| |].
    + intros l E. destruct (Hsome l E) as (ports & -> & Hall).
      exists (fill_port a attrs :: ports). unfold list_add.
      rewrite <- app_assoc. split; [reflexivity|].
      constructor; [now apply fill_port_fields|exact Hall].
    + intros E. destruct (Hnone E) as [H|H]; [left; now constructor 2|].
      right. exact H.
Qed.

Lemma port_list_loop_incomplete (items : list (nested port_attrs))
    (tmp : list team_port) (s : state) (r : option (list team_port))
    (s' : state) :
  Exists (fun item => ~ port_item_complete item) items ->
  run (port_list_loop items tmp) s = Done r s' -> r = None.
Proof.
  intros Hbad Hrun.
  destruct r as [l|]; [exfalso|reflexivity].
  destruct (port_list_loop_run items tmp s)
    as (r0 & s0 & Hrun0 & _ & _ & Hsome & _).
  rewrite Hrun in Hrun0. inversion Hrun0. subst r0 s0.
  destruct (Hsome l eq_refl) as (ports & _ & Hall).
  clear - Hbad Hall. induction Hall as [|item port items ports Hp _ IH].
  - inversion Hbad.
  - inversion Hbad as [? ? Hi|? ? Hi]; subst; [|now apply IH].
    apply Hi. destruct Hp as (attrs & a & E1 & E2 & _). now exists attrs, a.
Qed.

Lemma port_list_loop_complete (items : list (nested port_attrs))
    (tmp : list team_port) (s : state) :
  Forall port_item_complete items -> malloc_succeeds s ->
  exists l s', run (port_list_loop items tmp) s = Done (Some l) s'.
Proof.
  intros Hall Hm.
  destruct (port_list_loop_run items tmp s)
    as (r & s' & Hrun & _ & _ & _ & Hnone).
  destruct r as [l|]; [now exists l, s'|].
  exfalso. destruct (Hnone eq_refl) as [H|H]; [|tauto].
  apply Exists_exists in H. destruct H as (item & Hin & Hbad).
  rewrite Forall_forall in Hall. auto.
Qed.

(** What a run of [get_port_list_handler] leaves: the handle as it was,
    or the handle with the ports of all the items of the message, in
    their order, and PORT pending. *)
Lemma get_port_list_handler_run (msg : nl_msg) (s : state) :
  exists s',
    run (get_port_list_handler msg) s = Done NL_SKIP s' /\
    oracle s' = oracle s /\
    (th s' = th s \/
     exists items ports,
       TEAM_ATTR_LIST_PORT msg = Some items /\
       Forall2 port_of_item items ports /\
       th s' =
       set_pending_type_mask
         (Z.lor (th_pending_type_mask (th s)) TEAM_PORT_CHANGE)
         (set_port_list ports (th s))).
Proof.
  unfold get_port_list_handler. unfold_monad. cbv zeta.
  destruct (negb _).
  { exists s. auto. }
  destruct (TEAM_ATTR_LIST_PORT msg) as [items|].
  2:{ exists s. auto. }
  destruct (port_list_loop_run items [] s)
    as (r & s1 & Hrun & Hth & Hor & Hsome & _).
  unfold run in Hrun. rewrite Hrun.
  destruct r as [l|].
  - destruct (Hsome l eq_refl) as (ports & -> & Hall).
    eexists. split; [reflexivity|]. split; [exact Hor|].
    right. exists items, ports. repeat split; [exact Hall|].
    unfold flush_port_list, set_call_change_handlers, list_move_nodes.
    cbn. rewrite Hth. reflexivity.
  - exists s1. auto.
Qed.

(** ** Decoding an option list *)

Lemma strcpy_empty (s : string) : strcpy s = ""%string <-> peek s = NUL.
Proof.
  destruct s as [|c r]; simpl; [tauto|].
  destruct (Ascii.eqb_spec c NUL); split; congruence.
Qed.

Lemma strcpy_idem (s : string) : strcpy (strcpy s) = strcpy s.
Proof.
  induction s as [|c r IH]; simpl; [reflexivity|].
  destruct (Ascii.eqb c NUL) eqn:E; simpl; [reflexivity|].
  now rewrite E, IH.
Qed.

Lemma strcmp_zero (s1 s2 : string) :
  strcmp s1 s2 = 0 <-> strcpy s1 = strcpy s2.
Proof.
  revert s2. induction s1 as [|c1 r1 IH]; intros s2.
  - cbn [strcmp strcpy]. split.
    + intros H. symmetry. apply strcpy_empty. apply uchar_inj.
      rewrite uchar_NUL. lia.
    + intros H. symmetry in H. apply strcpy_empty in H. now rewrite H.
  - cbn [strcmp strcpy].
    destruct (Ascii.eqb_spec c1 (peek s2)) as [E|E].
    + destruct (Ascii.eqb_spec c1 NUL) as [N|N].
      * split; [|reflexivity]. intros _. symmetry. apply strcpy_empty.
        congruence.
      * rewrite IH. rewrite (peek_cons s2 c1) at 2 by congruence.
        cbn [strcpy]. destruct (Ascii.eqb_spec c1 NUL); [contradiction|].
        split; [congruence|]. intros H. now inversion H.
    + split.
      * intros H. exfalso. apply E, uchar_inj. lia.
      * intros H. exfalso. apply E.
        destruct (Ascii.eqb_spec c1 NUL) as [N|N].
        -- symmetry in H. apply strcpy_empty in H. congruence.
        -- destruct s2 as [|c2 r2]; cbn [strcpy] in H; [discriminate|].
           destruct (Ascii.eqb c2 NUL); [discriminate|].
           inversion H. reflexivity.
Qed.

Lemma find_option_present (tmp : list team_option) (name : string) :
  Forall name_ok tmp ->
  present (__find_option tmp name) = existsb (named (strcpy name)) tmp.
Proof.
  induction 1 as [|o tmp Ho _ IH]; cbn [__find_option existsb];
    [reflexivity|].
  unfold named at 1.
  destruct (Z.eqb_spec (strcmp (option_name o) name) 0) as [E|E].
  - apply strcmp_zero in E. rewrite Ho in E.
    cbn [present]. symmetry. apply orb_true_iff. left.
    now apply String.eqb_eq.
  - rewrite IH.
    destruct (String.eqb_spec (option_name o) (strcpy name)) as [E'|E'];
      [|reflexivity].
    exfalso. apply E, strcmp_zero. now rewrite Ho.
Qed.

Lemma memcpy_u32 (v : Z) : memcpy (bytes_of_u32 v) 4 = bytes_of_u32 v.
Proof. reflexivity. Qed.

Lemma memcpy_str (str : string) :
  memcpy (bytes_of_str str) (strlen str + 1) = bytes_of_str str.
Proof.
  unfold memcpy, strlen, bytes_of_str.
  set (cs := strcpy str).
  assert (E : Z.to_nat (Z.of_nat (String.length cs) + 1) =
              List.length (map uchar (list_ascii_of_string cs) ++ [0])).
  { rewrite length_app, length_map. cbn [List.length].
    replace (List.length (list_ascii_of_string cs)) with (String.length cs).
    - lia.
    - clear. induction cs as [|c r IH]; simpl; congruence. }
  rewrite E. apply firstn_all.
Qed.

Lemma create_option_run (name : string) (opt_type : team_option_type)
    (data : list Z) (data_size : Z) (changed : bool) (s : state) :
  exists r s',
    run (create_option name opt_type data data_size changed) s = Done r s' /\
    th s' = th s /\ oracle s' = oracle s /\
    (r = None -> ~ malloc_succeeds s) /\
    (forall o, r = Some o ->
       o = mk_team_option opt_type (strcpy name) (memcpy data data_size)
             changed).
Proof.
  unfold create_option. unfold_monad. cbv zeta.
  destruct (oracle s (trace s ++ [c_malloc]) =? 0) eqn:H1.
  { eexists _, _. split; [reflexivity|]. cbn. repeat split; [|discriminate].
    intros _ H. apply Z.eqb_eq in H1. exact (H _ H1). }
  cbn. destruct (oracle s ((trace s ++ [c_malloc]) ++ [c_malloc]) =? 0) eqn:H2.
  { eexists _, _. split; [reflexivity|]. cbn. repeat split; [|discriminate].
    intros _ H. apply Z.eqb_eq in H2. exact (H _ H2). }
  cbn. destruct (oracle s (((trace s ++ [c_malloc]) ++ [c_malloc])
                             ++ [c_malloc]) =? 0) eqn:H3.
  { eexists _, _. split; [reflexivity|]. cbn. repeat split; [|discriminate].
    intros _ H. apply Z.eqb_eq in H3. exact (H _ H3). }
  eexists _, _. split; [reflexivity|]. cbn. repeat split; [discriminate|].
  intros o E. now inversion E.
Qed.

Lemma malloc_succeeds_oracle (s s' : state) :
  oracle s' = oracle s -> malloc_succeeds s' -> malloc_succeeds s.
Proof. unfold malloc_succeeds. intros E H t. rewrite <- E. apply H. Qed.

Lemma keep_first_present (tmp : list team_option) (o : team_option) :
  existsb (named (option_name o)) tmp = true -> keep_first tmp o = tmp.
Proof. unfold keep_first. now intros ->. Qed.

Lemma keep_first_absent (tmp : list team_option) (o : team_option) :
  existsb (named (option_name o)) tmp = false ->
  keep_first tmp o = list_add tmp o.
Proof. unfold keep_first. now intros ->. Qed.

Lemma option_item_incomplete (attrs : option_attrs) :
  TEAM_ATTR_OPTION_NAME attrs = None \/
  TEAM_ATTR_OPTION_TYPE attrs = None \/
  TEAM_ATTR_OPTION_DATA attrs = None ->
  ~ option_item_complete (nested_table attrs).
Proof.
  intros H (attrs' & n & t & d & E & Hn & Ht & Hd).
  inversion E. subst attrs'. destruct H as [H|[H|H]]; congruence.
Qed.

(** The loop of [get_options_handler] against the uniqueness rule: when
    it runs to its end, the list it has built is [tmp] extended with the
    first decodable item of each new name. *)
Lemma option_list_loop_run (items : list (nested option_attrs))
    (tmp : list team_option) (s : state) :
  Forall name_ok tmp ->
  match run (option_list_loop items tmp) s with
  | Done r s' =>
      th s' = th s /\ oracle s' = oracle s /\
      (forall l, r = Some l ->
         l = fold_left keep_first (decodable_options items) tmp /\
         Forall option_item_complete items) /\
      (r = None ->
         Exists (fun item => ~ option_item_complete item) items)
  | Fault => ~ malloc_succeeds s
  | Blocked => False
  end.
Proof.
  revert tmp s. induction items as [|item items IH]; intros tmp s Hok.
  - cbn. split; [reflexivity|]. split; [reflexivity|].
    split; [|discriminate].
    intros l E. inversion E. split; [reflexivity|constructor].
  - cbn [option_list_loop].
    destruct item as [|attrs]; cbn [nla_parse_nested].
    { cbn. repeat split; try discriminate. intros _. constructor.
      intros (? & ? & ? & ? & E & _). discriminate E. }
    unfold decodable_options. cbn [flat_map decode_option_item].
    fold (decodable_options items).
    destruct (TEAM_ATTR_OPTION_NAME attrs) as [n|] eqn:Hn.
    2:{ cbn. repeat split; try discriminate. intros _. constructor.
        apply option_item_incomplete. auto. }
    destruct (TEAM_ATTR_OPTION_TYPE attrs) as [t|] eqn:Ht.
    2:{ cbn. repeat split; try discriminate. intros _. constructor.
        apply option_item_incomplete. auto. }
    destruct (TEAM_ATTR_OPTION_DATA attrs) as [d|] eqn:Hd.
    2:{ cbn. repeat split; try discriminate. intros _. constructor.
        apply option_item_incomplete. auto. }
    assert (Hc : option_item_complete (nested_table attrs))
      by (now exists attrs, n, t, d).
    cbv zeta.
    pose proof (find_option_present tmp (nla_get_string n) Hok) as Hf.
    destruct (__find_option tmp (nla_get_string n)) as [found|];
      cbn [present] in Hf; symmetry in Hf.
    + (* continue: the name is already in tmp_list *)
      specialize (IH tmp s Hok).
      destruct (run (option_list_loop items tmp) s) as [r s'| |];
        [|exact IH|exact IH].
      destruct IH as (Hth & Hor & Hsome & Hnone).
      repeat split; [exact Hth|exact Hor| | |].
      * destruct (Hsome l H) as [-> _].
        destruct (to_int (nla_get_u32 t) =? NLA_U32);
          [|destruct (to_int (nla_get_u32 t) =? NLA_STRING)];
          cbn [app fold_left]; try reflexivity;
          now rewrite keep_first_present.
      * constructor; [exact Hc|]. now apply (Hsome l).
      * intros E. constructor 2. now apply Hnone.
    + destruct (to_int (nla_get_u32 t) =? NLA_U32) eqn:Hu;
        [|destruct (to_int (nla_get_u32 t) =? NLA_STRING) eqn:Hs].
      * (* NLA_U32 *)
        unfold run, bind.
        destruct (create_option_run (nla_get_string n) TEAM_OPTION_TYPE_U32
                    (bytes_of_u32 (nla_get_u32 d)) 4
                    (present (TEAM_ATTR_OPTION_CHANGED attrs)) s)
          as (r & s1 & Hrun & Hth1 & Hor1 & Hnone1 & Hsome1).
        unfold run in Hrun.
        replace (match TEAM_ATTR_OPTION_CHANGED attrs with
                 | Some _ => true
                 | None => false
                 end) with (present (TEAM_ATTR_OPTION_CHANGED attrs))
          by reflexivity.
        rewrite Hrun.
        destruct r as [o|]; [|now apply Hnone1].
        rewrite (Hsome1 o eq_refl), memcpy_u32.
        set (o' := mk_team_option _ _ _ _).
        assert (Hok' : Forall name_ok (list_add tmp o')).
        { apply Forall_app. split; [exact Hok|].
          repeat constructor. apply strcpy_idem. }
        specialize (IH (list_add tmp o') s1 Hok'). unfold run in IH.
        destruct (option_list_loop items (list_add tmp o') s1)
          as [r s'| |]; [| |exact IH].
        2:{ intros H. apply IH. unfold malloc_succeeds in *.
            now rewrite Hor1. }
        destruct IH as (Hth & Hor & Hsome & Hnone).
        repeat split; [congruence|congruence| | |].
        -- destruct (Hsome l H) as [-> _]. cbn [app fold_left].
           now rewrite keep_first_absent.
        -- constructor; [exact Hc|]. now apply (Hsome l).
        -- intros E. constructor 2. now apply Hnone.
      * (* NLA_STRING *)
        unfold run, bind.
        destruct (create_option_run (nla_get_string n)
                    TEAM_OPTION_TYPE_STRING
                    (bytes_of_str (nla_get_string d))
                    (strlen (nla_get_string d) + 1)
                    (present (TEAM_ATTR_OPTION_CHANGED attrs)) s)
          as (r & s1 & Hrun & Hth1 & Hor1 & Hnone1 & Hsome1).
        unfold run in Hrun.
        replace (match TEAM_ATTR_OPTION_CHANGED attrs with
                 | Some _ => true
                 | None => false
                 end) with (present (TEAM_ATTR_OPTION_CHANGED attrs))
          by reflexivity.
        rewrite Hrun.
        destruct r as [o|]; [|now apply Hnone1].
        rewrite (Hsome1 o eq_refl), memcpy_str.
        set (o' := mk_team_option _ _ _ _).
        assert (Hok' : Forall name_ok (list_add tmp o')).
        { apply Forall_app. split; [exact Hok|].
          repeat constructor. apply strcpy_idem. }
        specialize (IH (list_add tmp o') s1 Hok'). unfold run in IH.
        destruct (option_list_loop items (list_add tmp o') s1)
          as [r s'| |]; [| |exact IH].
        2:{ intros H. apply IH. unfold malloc_succeeds in *.
            now rewrite Hor1. }
        destruct IH as (Hth & Hor & Hsome & Hnone).
        repeat split; [congruence|congruence| | |].
        -- destruct (Hsome l H) as [-> _]. cbn [app fold_left].
           now rewrite keep_first_absent.
        -- constructor; [exact Hc|]. now apply (Hsome l).
        -- intros E. constructor 2. now apply Hnone.
      * (* default: continue *)
        specialize (IH tmp s Hok).
        destruct (run (option_list_loop items tmp) s) as [r s'| |];
          [|exact IH|exact IH].
        destruct IH as (Hth & Hor & Hsome & Hnone).
        repeat split; [exact Hth|exact Hor| | |].
        -- now destruct (Hsome l H) as [-> _].
        -- constructor; [exact Hc|]. now apply (Hsome l).
        -- intros E. constructor 2. now apply Hnone.
Qed.

(** What a run of [get_options_handler] leaves: the handle as it was, or
    the handle with the first decodable item of each name of the whole
    message and OPTION pending. *)
Lemma get_options_handler_run (msg : nl_msg) (s : state) :
  match run (get_options_handler msg) s with
  | Done a s' =>
      a = NL_SKIP /\ oracle s' = oracle s /\
      (th s' = th s \/
       exists items,
         TEAM_ATTR_LIST_OPTION msg = Some items /\
         Forall option_item_complete items /\
         th s' =
         set_pending_type_mask
           (Z.lor (th_pending_type_mask (th s)) TEAM_OPTION_CHANGE)
           (set_option_list (first_of_each_name (decodable_options items))
              (th s)))
  | Fault => ~ malloc_succeeds s
  | Blocked => False
  end.
Proof.
  unfold get_options_handler. unfold_monad. cbv zeta.
  destruct (negb _); [auto|].
  destruct (TEAM_ATTR_LIST_OPTION msg) as [items|]; [|auto].
  pose proof (option_list_loop_run items [] s (Forall_nil _)) as H.
  unfold run in H.
  destruct (option_list_loop items [] s) as [r s1| |]; [|exact H|exact H].
  destruct H as (Hth & Hor & Hsome & _).
  destruct r as [l|]; [|auto].
  destruct (Hsome l eq_refl) as [-> Hall].
  split; [reflexivity|]. split; [exact Hor|].
  right. exists items. repeat split; [exact Hall|].
  unfold flush_option_list, set_call_change_handlers, list_move_nodes.
  cbn. rewrite Hth. reflexivity.
Qed.

Lemma get_options_handler_incomplete (msg : nl_msg) (s s' : state)
    (a : nl_cb_action) (items : list (nested option_attrs)) :
  TEAM_ATTR_LIST_OPTION msg = Some items ->
  Exists (fun item => ~ option_item_complete item) items ->
  run (get_options_handler msg) s = Done a s' ->
  a = NL_SKIP /\ th s' = th s.
Proof.
  intros Hl Hbad Hrun.
  pose proof (get_options_handler_run msg s) as H. rewrite Hrun in H.
  destruct H as (-> & _ & [Hth|(items' & Hl' & Hall & _)]); [now split|].
  exfalso. rewrite Hl in Hl'. inversion Hl'. subst items'.
  apply Exists_exists in Hbad. destruct Hbad as (item & Hin & Hno).
  rewrite Forall_forall in Hall. auto.
Qed.

Lemma get_options_handler_returns (msg : nl_msg) (s : state) :
  malloc_succeeds s ->
  exists s', run (get_options_handler msg) s = Done NL_SKIP s'.
Proof.
  intros Hm. pose proof (get_options_handler_run msg s) as H.
  destruct (run (get_options_handler msg) s) as [a s'| |].
  - destruct H as (-> & _). now exists s'.
  - contradiction.
  - contradiction.
Qed.

Lemma get_port_list_handler_incomplete (msg : nl_msg) (s : state)
    (items : list (nested port_attrs)) :
  TEAM_ATTR_LIST_PORT msg = Some items ->
  Exists (fun item => ~ port_item_complete item) items ->
  exists s', run (get_port_list_handler msg) s = Done NL_SKIP s' /\
             th s' = th s.
Proof.
  intros Hl Hbad.
  destruct (get_port_list_handler_run msg s)
    as (s' & Hrun & _ & [Hth|(items' & ports & Hl' & Hall & _)]).
  - now exists s'.
  - exfalso. rewrite Hl in Hl'. inversion Hl'. subst items'.
    clear - Hbad Hall. induction Hall as [|item port items ports Hp _ IH].
    + inversion Hbad.
    + inversion Hbad as [? ? Hi|? ? Hi]; subst; [|now apply IH].
      apply Hi. destruct Hp as (attrs & a & E1 & E2 & _).
      now exists attrs, a.
Qed.

(** ** The uniqueness rule *)

Lemma existsb_named (n : string) (l : list team_option) :
  existsb (named n) l = true <-> In n (names l).
Proof.
  unfold names. rewrite existsb_exists, in_map_iff.
  split; intros (o & H1 & H2).
  - exists o. split; [|exact H1]. now apply String.eqb_eq.
  - exists o. split; [exact H2|]. now apply String.eqb_eq.
Qed.

Lemma keep_first_cases (acc : list team_option) (o : team_option) :
  (In (option_name o) (names acc) /\ keep_first acc o = acc) \/
  (~ In (option_name o) (names acc) /\ keep_first acc o = acc ++ [o]).
Proof.
  unfold keep_first.
  destruct (existsb (named (option_name o)) acc) eqn:E.
  - left. split; [now apply existsb_named|reflexivity].
  - right. split; [|reflexivity]. intros H. apply existsb_named in H.
    congruence.
Qed.

Lemma fold_keep_first_NoDup (l acc : list team_option) :
  NoDup (names acc) -> NoDup (names (fold_left keep_first l acc)).
Proof.
  revert acc. induction l as [|o l IH]; intros acc Hnd; [exact Hnd|].
  cbn [fold_left]. apply IH.
  destruct (keep_first_cases acc o) as [[_ ->]|[Hnot ->]]; [exact Hnd|].
  unfold names in *. rewrite map_app. apply NoDup_app; [exact Hnd| |].
  - repeat constructor. intros [].
  - intros n Hn [<-|[]]. contradiction.
Qed.

Lemma fold_keep_first_keeps (l acc : list team_option) (x : team_option) :
  In x acc -> In x (fold_left keep_first l acc).
Proof.
  revert acc. induction l as [|o l IH]; intros acc Hin; [exact Hin|].
  cbn [fold_left]. apply IH.
  destruct (keep_first_cases acc o) as [[_ ->]|[_ ->]]; [exact Hin|].
  apply in_or_app. now left.
Qed.

Lemma fold_keep_first_from (l acc : list team_option) (x : team_option) :
  In x (fold_left keep_first l acc) -> In x acc \/ In x l.
Proof.
  revert acc. induction l as [|o l IH]; intros acc Hin; [now left|].
  cbn [fold_left] in Hin. apply IH in Hin. destruct Hin as [Hin|Hin].
  - destruct (keep_first_cases acc o) as [[_ E]|[_ E]]; rewrite E in Hin.
    + now left.
    + apply in_app_or in Hin. destruct Hin as [Hin|[<-|[]]].
      * now left.
      * right. now left.
  - right. now right.
Qed.

Lemma fold_keep_first_first (pre post acc : list team_option)
    (o : team_option) :
  ~ In (option_name o) (names acc) -> ~ In (option_name o) (names pre) ->
  In o (fold_left keep_first (pre ++ o :: post) acc).
Proof.
  revert acc. induction pre as [|x pre IH]; intros acc Hacc Hpre.
  - cbn [app fold_left]. apply fold_keep_first_keeps.
    destruct (keep_first_cases acc o) as [[H _]|[_ ->]]; [contradiction|].
    apply in_or_app. right. now left.
  - cbn [app fold_left]. apply IH.
    + destruct (keep_first_cases acc x) as [[_ ->]|[_ ->]]; [exact Hacc|].
      unfold names in *. rewrite map_app. intros H.
      apply in_app_or in H. destruct H as [H|[H|[]]]; [contradiction|].
      apply Hpre. left. exact H.
    + intros H. apply Hpre. right. exact H.
Qed.

Lemma NoDup_names_unique (l : list team_option) (o o' : team_option) :
  NoDup (names l) -> In o l -> In o' l ->
  option_name o' = option_name o -> o' = o.
Proof.
  induction l as [|x l IH]; intros Hnd Ho Ho' E; [destruct Ho|].
  cbn in Hnd. inversion Hnd as [|? ? Hx Hl]. subst.
  destruct Ho as [->|Ho], Ho' as [->|Ho'].
  - reflexivity.
  - exfalso. apply Hx. rewrite <- E. now apply in_map.
  - exfalso. apply Hx. rewrite E. now apply in_map.
  - now apply IH.
Qed.

Lemma decodable_options_app (l1 l2 : list (nested option_attrs)) :
  decodable_options (l1 ++ l2) = decodable_options l1 ++ decodable_options l2.
Proof. unfold decodable_options. apply flat_map_app. Qed.

Lemma decodable_options_in (items : list (nested option_attrs))
    (o : team_option) :
  In o (decodable_options items) <->
  exists item, In item items /\ decode_option_item item = Some o.
Proof.
  unfold decodable_options. rewrite in_flat_map.
  split; intros (item & Hin & H); exists item; split; auto.
  - destruct (decode_option_item item); [|destruct H].
    destruct H as [->|[]]. reflexivity.
  - rewrite H. now left.
Qed.

(** ** The handlers on a message of the bound device *)

Lemma Forall_Exists_not {A : Type} (P : A -> Prop) (l : list A) :
  Forall P l -> Exists (fun x => ~ P x) l -> False.
Proof.
  intros Hall Hex. apply Exists_exists in Hex.
  destruct Hex as (x & Hin & Hno). rewrite Forall_forall in Hall. auto.
Qed.

Lemma get_port_list_handler_complete (msg : nl_msg) (s : state)
    (items : list (nested port_attrs)) :
  device_match msg (th s) ->
  TEAM_ATTR_LIST_PORT msg = Some items ->
  Forall port_item_complete items -> malloc_succeeds s ->
  exists s' ports,
    run (get_port_list_handler msg) s = Done NL_SKIP s' /\
    Forall2 port_of_item items ports /\
    th s' =
    set_pending_type_mask
      (Z.lor (th_pending_type_mask (th s)) TEAM_PORT_CHANGE)
      (set_port_list ports (th s)).
Proof.
  intros (a & Ha & Hidx) Hl Hall Hm.
  unfold get_port_list_handler. unfold_monad. cbv zeta.
  rewrite Ha, Hidx, Z.eqb_refl, Hl. cbn [negb].
  destruct (port_list_loop_run items [] s)
    as (r & s1 & Hrun & Hth & _ & Hsome & Hnone).
  unfold run in Hrun. rewrite Hrun.
  destruct r as [l|].
  - destruct (Hsome l eq_refl) as (ports & -> & Hports).
    eexists _, ports. split; [reflexivity|]. split; [exact Hports|].
    unfold flush_port_list, set_call_change_handlers, list_move_nodes.
    cbn. rewrite Hth. reflexivity.
  - exfalso. destruct (Hnone eq_refl) as [H|H]; [|contradiction].
    exact (Forall_Exists_not _ _ Hall H).
Qed.

Lemma get_options_handler_complete (msg : nl_msg) (s s' : state)
    (a : nl_cb_action) (items : list (nested option_attrs)) :
  device_match msg (th s) ->
  TEAM_ATTR_LIST_OPTION msg = Some items ->
  Forall option_item_complete items ->
  run (get_options_handler msg) s = Done a s' ->
  th s' =
  set_pending_type_mask
    (Z.lor (th_pending_type_mask (th s)) TEAM_OPTION_CHANGE)
    (set_option_list (first_of_each_name (decodable_options items)) (th s)).
Proof.
  intros (ia & Ha & Hidx) Hl Hall.
  unfold get_options_handler. unfold_monad. cbv zeta.
  rewrite Ha, Hidx, Z.eqb_refl, Hl. cbn [negb].
  pose proof (option_list_loop_run items [] s (Forall_nil _)) as H.
  unfold run in H.
  destruct (option_list_loop items [] s) as [r s1| |];
    [|discriminate|discriminate].
  destruct H as (Hth & _ & Hsome & Hnone).
  destruct r as [l|].
  - destruct (Hsome l eq_refl) as [-> _].
    unfold flush_option_list, set_call_change_handlers, list_move_nodes.
    cbn. intros E. inversion E. cbn. rewrite Hth. reflexivity.
  - exfalso. exact (Forall_Exists_not _ _ Hall (Hnone eq_refl)).
Qed.

(** C3. A port-list or option-list message whose device index differs
    from the index the handle is bound to, or that carries none, is
    ignored: the handler returns NL_SKIP and the state is what it was, so
    the registries, the pending mask and [nl_sock_err] are untouched and
    nothing is called. *)
Theorem foreign_device_ignored (msg : nl_msg) (s : state) :
  device_mismatch msg (th s) ->
  run (get_port_list_handler msg) s = Done NL_SKIP s /\
  run (get_options_handler msg) s = Done NL_SKIP s /\
  run (event_handler msg) s = Done NL_SKIP s.
Proof.
  intros Hmis.
  assert (Hne : negb (match TEAM_ATTR_TEAM_IFINDEX msg with
                      | Some a => nla_get_u32 a
                      | None => 0
                      end =? th_ifindex (th s)) = true).
  { apply negb_true_iff, Z.eqb_neq.
    destruct Hmis as [(a & -> & H)|[-> H]]; [exact H|congruence]. }
  assert (Hp : run (get_port_list_handler msg) s = Done NL_SKIP s).
  { unfold get_port_list_handler. unfold_monad. cbv zeta.
    now rewrite Hne. }
  assert (Ho : run (get_options_handler msg) s = Done NL_SKIP s).
  { unfold get_options_handler. unfold_monad. cbv zeta.
    now rewrite Hne. }
  split; [exact Hp|]. split; [exact Ho|].
  unfold event_handler. destruct (cmd msg); auto.
Qed.

(** C9. Each port the handler puts in the registry stands for one item
    of the message, in the order of the items: its interface index is
    the item's ifindex attribute; its speed is the speed attribute, 0
    when absent; its duplex is the duplex attribute, 0 (half) when
    absent; linkup and changed are true exactly when the flag attribute
    is present. *)
Theorem port_items_decoded (msg : nl_msg) (s : state) :
  (forall s',
      run (get_port_list_handler msg) s = Done NL_SKIP s' ->
      th_port_list (th s') = th_port_list (th s) \/
      exists items,
        TEAM_ATTR_LIST_PORT msg = Some items /\
        Forall2 port_of_item items (th_port_list (th s'))) /\
  (forall items,
      device_match msg (th s) ->
      TEAM_ATTR_LIST_PORT msg = Some items ->
      Forall port_item_complete items -> malloc_succeeds s ->
      exists s',
        run (get_port_list_handler msg) s = Done NL_SKIP s' /\
        Forall2 port_of_item items (th_port_list (th s'))).
Proof.
  split.
  - intros s' Hrun.
    destruct (get_port_list_handler_run msg s)
      as (s1 & Hrun1 & _ & [Hth|(items & ports & Hl & Hall & Hth)]);
      rewrite Hrun in Hrun1; inversion Hrun1; subst s1.
    + left. now rewrite Hth.
    + right. exists items. split; [exact Hl|]. now rewrite Hth.
  - intros items Hdev Hl Hall Hm.
    destruct (get_port_list_handler_complete msg s items Hdev Hl Hall Hm)
      as (s' & ports & Hrun & Hports & Hth).
    exists s'. split; [exact Hrun|]. now rewrite Hth.
Qed.

(** C1, as amended. An item that lacks a mandatory attribute (ifindex
    for a port item; name, type or data for an option item) makes the
    handler return at once: the whole message is dropped, no item of it
    reaches the registry, the handle (registry and pending mask) is what
    it was, and the handler returns NL_SKIP, which is no error. *)
Theorem missing_attribute_drops_message (msg : nl_msg) (s : state) :
  (forall items,
      TEAM_ATTR_LIST_PORT msg = Some items ->
      Exists port_item_lacks_ifindex items ->
      exists s', run (get_port_list_handler msg) s = Done NL_SKIP s' /\
                 th s' = th s) /\
  (forall items,
      TEAM_ATTR_LIST_OPTION msg = Some items ->
      Exists option_item_lacks_attr items ->
      (forall a s', run (get_options_handler msg) s = Done a s' ->
                    a = NL_SKIP /\ th s' = th s) /\
      (malloc_succeeds s ->
       exists s', run (get_options_handler msg) s = Done NL_SKIP s')).
Proof.
  split.
  - intros items Hl Hbad.
    apply (get_port_list_handler_incomplete msg s items Hl).
    apply Exists_exists in Hbad. destruct Hbad as (item & Hin & Hlack).
    apply Exists_exists. exists item. split; [exact Hin|].
    destruct Hlack as (attrs & -> & Hnone).
    intros (attrs' & a & E & Ha). inversion E. subst. congruence.
  - intros items Hl Hbad. split.
    + intros a s' Hrun.
      apply (get_options_handler_incomplete msg s s' a items Hl); [|exact Hrun].
      apply Exists_exists in Hbad. destruct Hbad as (item & Hin & Hlack).
      apply Exists_exists. exists item. split; [exact Hin|].
      destruct Hlack as (attrs & -> & Hnone).
      now apply option_item_incomplete.
    + apply get_options_handler_returns.
Qed.

(** C2, as amended. The option registry never holds two options of one
    name. After a refresh from a message that is decoded to its end, it
    holds the decodable items of the message (those with a known type
    tag), the first of each name only: the first decodable item of a
    name is kept, as the only entry of that name, and any later item of
    that name is dropped. *)
Theorem option_names_unique (msg : nl_msg) (s : state) :
  (NoDup (names (th_option_list (th s))) ->
   forall a s', run (get_options_handler msg) s = Done a s' ->
                NoDup (names (th_option_list (th s')))) /\
  (forall items,
      device_match msg (th s) ->
      TEAM_ATTR_LIST_OPTION msg = Some items ->
      Forall option_item_complete items ->
      forall a s', run (get_options_handler msg) s = Done a s' ->
        let registry := th_option_list (th s') in
        registry = first_of_each_name (decodable_options items) /\
        NoDup (names registry) /\
        (forall o, In o registry ->
           exists item, In item items /\ decode_option_item item = Some o) /\
        (forall before item after o,
            items = before ++ item :: after ->
            decode_option_item item = Some o ->
            (forall item' o', In item' before ->
                              decode_option_item item' = Some o' ->
                              option_name o' <> option_name o) ->
            In o registry /\
            (forall o', In o' registry ->
                        option_name o' = option_name o -> o' = o))) /\
  (malloc_succeeds s ->
   exists s', run (get_options_handler msg) s = Done NL_SKIP s').
Proof.
  split; [|split].
  - intros Hnd a s' Hrun.
    pose proof (get_options_handler_run msg s) as H. rewrite Hrun in H.
    destruct H as (_ & _ & [Hth|(items & _ & _ & Hth)]); rewrite Hth.
    + exact Hnd.
    + cbn. apply fold_keep_first_NoDup. constructor.
  - intros items Hdev Hl Hall a s' Hrun. cbv zeta.
    rewrite (get_options_handler_complete msg s s' a items Hdev Hl Hall Hrun).
    cbn [th_option_list set_pending_type_mask set_option_list].
    assert (Hnd : NoDup (names (first_of_each_name (decodable_options items))))
      by (apply fold_keep_first_NoDup; constructor).
    split; [reflexivity|]. split; [exact Hnd|]. split.
    + intros o Ho. apply fold_keep_first_from in Ho.
      destruct Ho as [[]|Ho]. now apply decodable_options_in.
    + intros before item after o Hitems Hdec Hfirst.
      assert (Hin : In o (first_of_each_name (decodable_options items))).
      { rewrite Hitems, decodable_options_app.
        unfold decodable_options at 2. cbn [flat_map]. rewrite Hdec.
        fold (decodable_options after). cbn [app].
        apply fold_keep_first_first; [intros []|].
        unfold names. rewrite in_map_iff. intros (o' & E & Ho').
        apply decodable_options_in in Ho'.
        destruct Ho' as (item' & Hin' & Hdec').
        exact (Hfirst item' o' Hin' Hdec' E). }
      split; [exact Hin|].
      intros o' Ho' E. now apply (NoDup_names_unique _ o o' Hnd).
  - apply get_options_handler_returns.
Qed.

(** ** Receiving a reply *)

Section ReceiveInvariant.

(** A property [P] of the handle that the callbacks keep: it does not
    depend on [nl_sock_err], and [valid_handler] keeps it on the
    messages that satisfy [Q]. *)
Variable P : team_handle -> Prop.
Variable Q : nl_msg -> Prop.
Variable valid_handler : nl_msg -> M nl_cb_action.

Hypothesis P_nl_sock_err : forall e h, P h -> P (set_nl_sock_err e h).
Hypothesis P_valid_handler :
  forall msg s a s',
    Q msg -> P (th s) -> valid_handler msg s = Done a s' -> P (th s').




End ReceiveInvariant.



(** ** Refreshing a registry *)














(** ** Initialisation *)

(** C10. [team_init] with interface index 0 returns -ENOENT at once: no
    call leaves the library (no connection, no family resolution, no
    fetch) and the handle is what it was, so the interface index of a
    handle fresh from [team_alloc] is still 0; on a handle whose
    interface index is 0, [team_destroy] returns -ENODEV, again without
    a call. *)
Theorem init_without_device (s : state) :
  run (team_init 0) s = Done (- ENOENT) s /\
  (th_ifindex (th s) = 0 -> run team_destroy s = Done (- ENODEV) s) /\
  (forall s0,
      run team_alloc s0 = Done true s ->
      th_ifindex (th s) = 0 /\
      run (r <- team_init 0 ;; d <- team_destroy ;; ret (r, d)) s =
      Done (- ENOENT, - ENODEV) s).
Proof.
  assert (Hd : th_ifindex (th s) = 0 ->
               run team_destroy s = Done (- ENODEV) s).
  { intros H. unfold team_destroy. unfold_monad. now rewrite H. }
  split; [reflexivity|]. split; [exact Hd|].
  intros s0 Halloc.
  assert (H0 : th_ifindex (th s) = 0)
    by (now rewrite (team_alloc_handle s0 s Halloc)).
  split; [exact H0|].
  specialize (Hd H0). unfold run in *. unfold bind.
  change (team_init 0 s) with (Done (- ENOENT) s). cbv beta iota.
  now rewrite Hd.
Qed.

(** ** Worked examples *)

Lemma bound_state_malloc : malloc_succeeds bound_state.
Proof. intros t. cbn. discriminate. Qed.

Lemma bound_state_device (items : list (nested port_attrs)) :
  device_match (port_list_msg 5 items) (th bound_state).
Proof. exists (u32_attr 5). split; reflexivity. Qed.

Lemma bound_state_device_options (items : list (nested option_attrs)) :
  device_match (option_list_msg 5 items) (th bound_state).
Proof. exists (u32_attr 5). split; reflexivity. Qed.

Lemma foreign_device_ignored_witness :
  device_mismatch (port_list_msg 6 [port_item_7]) (th bound_state) /\
  run (get_port_list_handler (port_list_msg 6 [port_item_7])) bound_state =
    Done NL_SKIP bound_state.
Proof.
  assert (H : device_mismatch (port_list_msg 6 [port_item_7])
                (th bound_state)).
  { left. exists (u32_attr 6). split; [reflexivity|]. vm_compute.
    discriminate. }
  split; [exact H|].
  exact (proj1 (foreign_device_ignored _ bound_state H)).
Defined.

Lemma port_items_decoded_witness :
  exists s',
    run (get_port_list_handler (port_list_msg 5 [port_item_7; port_item_9]))
      bound_state = Done NL_SKIP s' /\
    Forall2 port_of_item [port_item_7; port_item_9] (th_port_list (th s')).
Proof.
  apply (proj2 (port_items_decoded
                  (port_list_msg 5 [port_item_7; port_item_9]) bound_state)).
  - apply bound_state_device.
  - reflexivity.
  - repeat constructor.
    + now exists (mk_port_attrs (Some (u32_attr 7)) None (Some flag_attr)
                    (Some (u32_attr 1000)) None), (u32_attr 7).
    + now exists (mk_port_attrs (Some (u32_attr 9)) (Some flag_attr) None
                    None (Some (u32_attr 1))), (u32_attr 9).
  - exact bound_state_malloc.
Defined.

Lemma missing_attribute_drops_message_witness :
  (exists s',
     run (get_port_list_handler
            (port_list_msg 5
               [port_item_7; port_item_without_ifindex; port_item_9]))
       bound_state = Done NL_SKIP s' /\ th s' = th bound_state) /\
  (exists s',
     run (get_options_handler
            (option_list_msg 5
               [option_item "mode" NLA_STRING (string_attr "roundrobin");
                option_item_without_data "activeport"]))
       bound_state = Done NL_SKIP s').
Proof.
  split.
  - apply (proj1 (missing_attribute_drops_message
                    (port_list_msg 5
                       [port_item_7; port_item_without_ifindex; port_item_9])
                    bound_state)
             [port_item_7; port_item_without_ifindex; port_item_9]
             eq_refl).
    constructor 2. constructor 1. eexists. split; reflexivity.
  - apply (proj2 (missing_attribute_drops_message
                    (option_list_msg 5
                       [option_item "mode" NLA_STRING
                          (string_attr "roundrobin");
                        option_item_without_data "activeport"])
                    bound_state)
             [option_item "mode" NLA_STRING (string_attr "roundrobin");
              option_item_without_data "activeport"] eq_refl).
    + constructor 2. constructor 1. eexists. split; [reflexivity|].
      right. right. reflexivity.
    + exact bound_state_malloc.
Defined.

(** C1, as stated, fails: of three port items the second has no ifindex;
    the first and the third are complete, and alone they fill the
    registry with two ports. With the second among them the registry
    stays empty and PORT is not made pending: the whole message is
    dropped, not the one item. *)
Lemma single_item_skip_counterexample :
  port_item_complete port_item_7 /\
  port_item_lacks_ifindex port_item_without_ifindex /\
  port_item_complete port_item_9 /\
  (exists s',
     run (get_port_list_handler (port_list_msg 5 [port_item_7; port_item_9]))
       bound_state = Done NL_SKIP s' /\
     th_port_list (th s') =
       [mk_team_port 7 1000 0 true false; mk_team_port 9 0 1 false true] /\
     th_pending_type_mask (th s') = TEAM_PORT_CHANGE) /\
  (exists s',
     run (get_port_list_handler
            (port_list_msg 5
               [port_item_7; port_item_without_ifindex; port_item_9]))
       bound_state = Done NL_SKIP s' /\
     th_port_list (th s') = [] /\
     th_pending_type_mask (th s') = 0).
Proof.
  split; [|split; [|split; [|split]]].
  - eexists _, _. split; reflexivity.
  - eexists. split; reflexivity.
  - eexists _, _. split; reflexivity.
  - eexists. split; [reflexivity|]. split; reflexivity.
  - eexists. split; [reflexivity|]. split; reflexivity.
Qed.

Lemma option_names_unique_witness :
  exists s',
    run (get_options_handler
           (option_list_msg 5
              [option_item "mode" NLA_STRING (string_attr "roundrobin");
               option_item "mode" NLA_STRING (string_attr "activebackup")]))
      bound_state = Done NL_SKIP s' /\
    NoDup (names (th_option_list (th s'))) /\
    In (mk_team_option TEAM_OPTION_TYPE_STRING "mode"
          (bytes_of_str "roundrobin") false) (th_option_list (th s')).
Proof.
  set (items := [option_item "mode" NLA_STRING (string_attr "roundrobin");
                 option_item "mode" NLA_STRING (string_attr "activebackup")]).
  destruct (option_names_unique (option_list_msg 5 items) bound_state)
    as (Hinv & Hreg & Hret).
  destruct (Hret bound_state_malloc) as (s' & Hrun).
  exists s'. split; [exact Hrun|].
  assert (Hc : Forall option_item_complete items).
  { repeat constructor; eexists _, _, _, _; repeat split; reflexivity. }
  split.
  - apply (Hinv (NoDup_nil _) NL_SKIP s' Hrun).
  - destruct (Hreg items (bound_state_device_options items) eq_refl Hc
                NL_SKIP s' Hrun) as (_ & _ & _ & Hfirst).
    apply (Hfirst [] (option_item "mode" NLA_STRING (string_attr "roundrobin"))
             [option_item "mode" NLA_STRING (string_attr "activebackup")]);
      [reflexivity|reflexivity|].
    intros item' o' [].
Defined.

(** C2, as stated, fails: of two items named "mode" the first carries an
    unknown type tag and is skipped for that; the registry then holds
    the second item, not the first one encountered. When both carry an
    unknown tag the refreshed registry has no entry of that name. *)
Lemma first_item_kept_counterexample :
  (exists s',
     run (get_options_handler
            (option_list_msg 5
               [option_item "mode" 99 (string_attr "roundrobin");
                option_item "mode" NLA_STRING (string_attr "activebackup")]))
       bound_state = Done NL_SKIP s' /\
     th_option_list (th s') =
       [mk_team_option TEAM_OPTION_TYPE_STRING "mode"
          (bytes_of_str "activebackup") false] /\
     bytes_of_str "activebackup" <> bytes_of_str "roundrobin") /\
  (exists s',
     run (get_options_handler
            (option_list_msg 5
               [option_item "mode" 99 (string_attr "roundrobin");
                option_item "mode" 99 (string_attr "activebackup")]))
       bound_state = Done NL_SKIP s' /\
     th_option_list (th s') = [] /\
     th_pending_type_mask (th s') = TEAM_OPTION_CHANGE).
Proof.
  split.
  - eexists. split; [reflexivity|]. split; [reflexivity|].
    vm_compute. discriminate.
  - eexists. split; [reflexivity|]. split; reflexivity.
Qed.



Lemma init_without_device_witness :
  run team_alloc (TEAM_LOG_state None) = Done true fresh_state /\
  th_ifindex (th fresh_state) = 0 /\
  run (r <- team_init 0 ;; d <- team_destroy ;; ret (r, d)) fresh_state =
    Done (- ENOENT, - ENODEV) fresh_state.
Proof.
  assert (H : run team_alloc (TEAM_LOG_state None) = Done true fresh_state)
    by reflexivity.
  split; [exact H|].
  exact (proj2 (proj2 (init_without_device fresh_state))
           (TEAM_LOG_state None) H).
Defined.

(** * Further properties *)

(** ** Error codes *)

Lemma nl2syserr_nonneg (n : Z) : 0 <= nl2syserr n.
Proof.
  unfold nl2syserr. cbv zeta.
  repeat match goal with
         | |- context [if ?c then _ else _] => destruct c
         end; discriminate.
Qed.

Lemma nl2syserr_opp (n : Z) : nl2syserr (- n) = nl2syserr n.
Proof. unfold nl2syserr, c_abs. now rewrite Z.abs_opp. Qed.

Lemma c_abs_zero (n : Z) : INT_MIN <= n <= INT_MAX -> c_abs n = 0 -> n = 0.
Proof.
  intros Hrange. unfold c_abs.
  destruct (Z.eq_dec n INT_MIN) as [->|Hmin]; [discriminate|].
  rewrite to_int_id by (unfold INT_MIN, INT_MAX in *; lia). lia.
Qed.

Lemma nl2syserr_zero (n : Z) :
  INT_MIN <= n <= INT_MAX -> (nl2syserr n = 0 <-> n = 0).
Proof.
  intros Hrange. split; [|now intros ->].
  unfold nl2syserr. cbv zeta.
  destruct (Z.eqb_spec (c_abs n) 0) as [E|_].
  - intros _. now apply c_abs_zero.
  - repeat match goal with
           | |- context [if ?c then _ else _] => destruct c
           end; discriminate.
Qed.

(** X1. [nl2syserr] never turns a failure into success and never
    returns a negative number: its result is 0 for the code 0 only, it
    is not negative, and a code and its opposite have the same
    translation; so [- nl2syserr err], which the library returns, is
    zero or negative, and zero only when [err] is. *)
Theorem nl2syserr_keeps_failure :
  (forall n, 0 <= nl2syserr n) /\
  (forall n, nl2syserr (- n) = nl2syserr n) /\
  (forall n, INT_MIN <= n <= INT_MAX -> (- nl2syserr n = 0 <-> n = 0)).
Proof.
  split; [exact nl2syserr_nonneg|]. split; [exact nl2syserr_opp|].
  intros n Hrange. rewrite <- (nl2syserr_zero n Hrange). lia.
Qed.

Lemma nl2syserr_keeps_failure_witness :
  INT_MIN <= -19 <= INT_MAX /\ (- nl2syserr (-19) = 0 <-> -19 = 0).
Proof.
  assert (R : INT_MIN <= -19 <= INT_MAX) by (unfold INT_MIN, INT_MAX; lia).
  split; [exact R|].
  exact (proj2 (proj2 nl2syserr_keeps_failure) (-19) R).
Defined.

(** ** Creating a device *)

Lemma do_create_cases (r : rtnl_results) (team_name : option string)
    (recreate : bool) :
  let deletes :=
    match team_name with
    | Some _ => recreate && negb (team_ifname2ifindex r =? 0)
    | None => false
    end in
  let deleted :=
    match team_name with
    | Some name => if deletes then [request_delete name] else []
    | None => []
    end in
  do_create r team_name recreate =
  if rtnl_link_alloc_result r =? 0 then (- ENOMEM, [])
  else if deletes && negb (rtnl_link_delete_result r =? 0)
  then (- nl2syserr (rtnl_link_delete_result r), deleted)
  else if negb (rtnl_link_set_type_result r =? 0)
  then (- nl2syserr (rtnl_link_set_type_result r), deleted)
  else (- nl2syserr (rtnl_link_add_result r),
        deleted ++ [request_add team_name]).
Proof.
  cbv zeta. unfold do_create.
  destruct (rtnl_link_alloc_result r =? 0); [reflexivity|].
  destruct team_name as [name|]; cbn [andb].
  - destruct (recreate && negb (team_ifname2ifindex r =? 0)); cbn [andb].
    + destruct (negb (rtnl_link_delete_result r =? 0)); reflexivity.
    + reflexivity.
  - reflexivity.
Qed.

(** X2. What [do_create] asks of the kernel. It returns zero or a
    negative number. It asks for a deletion only for [team_recreate],
    with a name, when that name resolves to an interface, and before
    anything else; so [team_create] never deletes. When the deletion
    fails the creation is not asked for and the error of the deletion is
    returned. The creation is the last request, and when the results are
    [int]s the value returned is 0 exactly when the creation was asked
    for and succeeded: a deletion that went through is not undone when
    the creation fails. *)
Theorem do_create_requests (r : rtnl_results) (team_name : option string)
    (recreate : bool) :
  let res := fst (do_create r team_name recreate) in
  let sent := snd (do_create r team_name recreate) in
  res <= 0 /\
  (forall name,
      In (request_delete name) sent ->
      recreate = true /\ team_name = Some name /\
      team_ifname2ifindex r <> 0 /\
      hd_error sent = Some (request_delete name)) /\
  (forall name link,
      In (request_delete name) sent ->
      rtnl_link_delete_result r <> 0 ->
      ~ In (request_add link) sent /\
      res = - nl2syserr (rtnl_link_delete_result r)) /\
  (forall link,
      In (request_add link) sent ->
      link = team_name /\
      (exists before, sent = before ++ [request_add link]) /\
      res = - nl2syserr (rtnl_link_add_result r)) /\
  (INT_MIN <= rtnl_link_delete_result r <= INT_MAX ->
   INT_MIN <= rtnl_link_set_type_result r <= INT_MAX ->
   INT_MIN <= rtnl_link_add_result r <= INT_MAX ->
   (res = 0 <->
    In (request_add team_name) sent /\ rtnl_link_add_result r = 0)).
Proof.
  cbv zeta. rewrite do_create_cases. cbv zeta.
  pose proof (nl2syserr_nonneg (rtnl_link_delete_result r)) as N1.
  pose proof (nl2syserr_nonneg (rtnl_link_set_type_result r)) as N2.
  pose proof (nl2syserr_nonneg (rtnl_link_add_result r)) as N3.
  pose proof (nl2syserr_zero (rtnl_link_delete_result r)) as Z1.
  pose proof (nl2syserr_zero (rtnl_link_set_type_result r)) as Z2.
  pose proof (nl2syserr_zero (rtnl_link_add_result r)) as Z3.
  assert (HE : - ENOMEM <> 0) by discriminate.
  assert (HE' : - ENOMEM <= 0) by discriminate.
  destruct (rtnl_link_alloc_result r =? 0);
    [|destruct team_name as [tname|];
      [destruct recreate;
       [destruct (Z.eqb_spec (team_ifname2ifindex r) 0);
        [|destruct (Z.eqb_spec (rtnl_link_delete_result r) 0)]|]|];
      destruct (Z.eqb_spec (rtnl_link_set_type_result r) 0)];
    cbn [andb negb fst snd app hd_error];
    (split; [lia|]);
    (split; [intros name H; in_list; repeat split; auto; try congruence|]);
    (split; [intros name link H Hd; in_list; try contradiction;
             (split; [intros H'; in_list|reflexivity])|]);
    (split; [intros link H; in_list;
             (split; [reflexivity|]);
             (split; [|reflexivity]);
             first [now exists [] | now eexists [_]]|]);
    intros R1 R2 R3; specialize (Z1 R1); specialize (Z2 R2);
    specialize (Z3 R3);
    (split; [intros H|intros [H H']; in_list; try lia]).
  all: try (exfalso; lia).
  all: try (split; [cbn [In]; auto|apply Z3; lia]).
  all: try tauto.
Qed.

Lemma do_create_requests_witness :
  snd (team_recreate busy_device (Some "team0"%string)) =
    [request_delete "team0"] /\
  fst (team_recreate busy_device (Some "team0"%string)) = - EBUSY /\
  snd (team_recreate refused_creation (Some "team0"%string)) =
    [request_delete "team0"; request_add (Some "team0"%string)] /\
  fst (team_recreate refused_creation (Some "team0"%string)) = - EPERM /\
  snd (team_create busy_device (Some "team0"%string)) =
    [request_add (Some "team0"%string)].
Proof.
  destruct (do_create_requests busy_device (Some "team0"%string) true)
    as (_ & _ & Hfail & _).
  destruct (do_create_requests refused_creation (Some "team0"%string) true)
    as (_ & _ & _ & Hadd & _).
  split; [reflexivity|]. split.
  - apply (Hfail "team0"%string None); [now left|discriminate].
  - split; [reflexivity|]. split; [|reflexivity].
    apply (Hadd (Some "team0"%string)). right. now left.
Defined.

(** ** Option values *)

Lemma u32_at_bytes (v : Z) (past : nat -> Z) :
  0 <= v < 2 ^ 32 -> u32_at (bytes_of_u32 v) past = v.
Proof.
  intros Hv. unfold bytes_of_u32, u32_at. cbv zeta. cbn [nth].
  pose proof (Z.div_mod v 256 ltac:(lia)) as E0.
  pose proof (Z.div_mod (v / 256) 256 ltac:(lia)) as E1.
  pose proof (Z.div_mod (v / 256 / 256) 256 ltac:(lia)) as E2.
  rewrite Z.div_div in E1, E2 by lia.
  rewrite Z.div_div in E2 by lia.
  change (256 * 256) with 65536 in *.
  change (65536 * 256) with 16777216 in *.
  assert (H3 : 0 <= v / 16777216 < 256).
  { split; [apply Z.div_pos; lia|].
    apply Z.div_lt_upper_bound; [lia|]. change (16777216 * 256) with (2 ^ 32).
    lia. }
  rewrite (Z.mod_small (v / 16777216) 256) by exact H3.
  lia.
Qed.

Lemma strcpy_no_NUL (s : string) :
  string_forall (fun c => negb (Ascii.eqb c NUL)) (strcpy s) = true.
Proof.
  induction s as [|c r IH]; cbn [strcpy]; [reflexivity|].
  destruct (Ascii.eqb c NUL) eqn:E; [reflexivity|].
  cbn [string_forall]. now rewrite E, IH.
Qed.

Lemma ascii_of_uchar (c : ascii) : ascii_of_N (Z.to_N (uchar c)) = c.
Proof. unfold uchar. rewrite N2Z.id. apply ascii_N_embedding. Qed.

Lemma string_at_chars (cs : string) :
  string_forall (fun c => negb (Ascii.eqb c NUL)) cs = true ->
  string_at (map uchar (list_ascii_of_string cs) ++ [0]) = Some cs.
Proof.
  induction cs as [|c cs IH]; cbn [list_ascii_of_string map app string_at
                                   string_forall]; intros H.
  - reflexivity.
  - apply andb_true_iff in H. destruct H as [Hc Hcs].
    apply negb_true_iff in Hc.
    destruct (Z.eqb_spec (uchar c) 0) as [E|_].
    + exfalso. assert (c = NUL) by (apply uchar_inj; now rewrite E).
      subst. discriminate Hc.
    + rewrite (IH Hcs), ascii_of_uchar. reflexivity.
Qed.

Lemma string_at_bytes (str : string) :
  string_at (bytes_of_str str) = Some (strcpy str).
Proof. apply string_at_chars, strcpy_no_NUL. Qed.

Lemma nla_get_u32_range (a : nlattr) : 0 <= nla_get_u32 a < 2 ^ 32.
Proof. unfold nla_get_u32, to_u32. apply Z.mod_pos_bound. lia. Qed.

Lemma decode_option_item_name_ok (item : nested option_attrs)
    (o : team_option) :
  decode_option_item item = Some o -> name_ok o.
Proof.
  unfold decode_option_item, name_ok.
  destruct item as [|attrs]; [discriminate|].
  destruct (TEAM_ATTR_OPTION_NAME attrs); [|discriminate].
  destruct (TEAM_ATTR_OPTION_TYPE attrs); [|discriminate].
  destruct (TEAM_ATTR_OPTION_DATA attrs); [|discriminate].
  repeat case_if; intros E; inversion E; cbn; apply strcpy_idem.
Qed.

Lemma first_of_each_name_ok (items : list (nested option_attrs)) :
  Forall name_ok (first_of_each_name (decodable_options items)).
Proof.
  apply Forall_forall. intros o Ho.
  apply fold_keep_first_from in Ho. destruct Ho as [[]|Ho].
  apply decodable_options_in in Ho. destruct Ho as (item & _ & Hd).
  now apply (decode_option_item_name_ok item).
Qed.

Lemma find_option_found (l : list team_option) (name : string)
    (o : team_option) :
  Forall name_ok l -> NoDup (names l) -> In o l ->
  option_name o = strcpy name ->
  __find_option l name = Some o.
Proof.
  induction l as [|x l IH]; intros Hok Hnd Hin Hname; [destruct Hin|].
  inversion Hok as [|? ? Hx Hl]. subst.
  cbn in Hnd. inversion Hnd as [|? ? Hnot Hnd']. subst.
  cbn [__find_option].
  destruct (Z.eqb_spec (strcmp (option_name x) name) 0) as [E|E].
  - apply strcmp_zero in E. rewrite Hx in E.
    destruct Hin as [->|Hin]; [reflexivity|].
    exfalso. apply Hnot. rewrite E, <- Hname. now apply in_map.
  - destruct Hin as [->|Hin]; [|now apply IH].
    exfalso. apply E, strcmp_zero. now rewrite Hx.
Qed.

Lemma find_option_absent (l : list team_option) (name : string) :
  Forall name_ok l ->
  (__find_option l name = None <-> ~ In (strcpy name) (names l)).
Proof.
  intros Hok. pose proof (find_option_present l name Hok) as H.
  rewrite <- existsb_named.
  destruct (__find_option l name); cbn [present] in H; rewrite <- H.
  - split; [discriminate|]. intros E. now exfalso.
  - split; [discriminate|reflexivity].
Qed.

Lemma find_option_some (l : list team_option) (name : string)
    (o : team_option) :
  Forall name_ok l -> __find_option l name = Some o ->
  In o l /\ option_name o = strcpy name.
Proof.
  induction l as [|x l IH]; intros Hok H; [discriminate|].
  inversion Hok as [|? ? Hx Hl]. subst. cbn [__find_option] in H.
  destruct (Z.eqb_spec (strcmp (option_name x) name) 0) as [E|E].
  - inversion H. subst. split; [now left|].
    apply strcmp_zero in E. now rewrite Hx in E.
  - destruct (IH Hl H) as [Hin Hn]. split; [now right|exact Hn].
Qed.

Lemma first_decodable_kept (items before after : list (nested option_attrs))
    (item : nested option_attrs) (o : team_option) :
  items = before ++ item :: after ->
  decode_option_item item = Some o ->
  (forall item' o', In item' before -> decode_option_item item' = Some o' ->
                    option_name o' <> option_name o) ->
  In o (first_of_each_name (decodable_options items)).
Proof.
  intros Hitems Hdec Hfirst.
  rewrite Hitems, decodable_options_app.
  unfold decodable_options at 2. cbn [flat_map]. rewrite Hdec.
  fold (decodable_options after). cbn [app].
  apply fold_keep_first_first; [intros []|].
  unfold names. rewrite in_map_iff. intros (o' & E & Ho').
  apply decodable_options_in in Ho'.
  destruct Ho' as (item' & Hin' & Hdec').
  exact (Hfirst item' o' Hin' Hdec' E).
Qed.

Lemma refreshed_option_list (msg : nl_msg) (s s' : state)
    (a : nl_cb_action) (items : list (nested option_attrs)) :
  device_match msg (th s) ->
  TEAM_ATTR_LIST_OPTION msg = Some items ->
  Forall option_item_complete items ->
  run (get_options_handler msg) s = Done a s' ->
  th_option_list (th s') = first_of_each_name (decodable_options items).
Proof.
  intros Hdev Hl Hall Hrun.
  now rewrite (get_options_handler_complete msg s s' a items Hdev Hl Hall
                 Hrun).
Qed.

Lemma team_get_option_by_name_run (name : string) (s : state) :
  run (team_get_option_by_name name) s =
  Done (__find_option (th_option_list (th s)) name) s.
Proof. reflexivity. Qed.

Lemma fold_keep_first_names (l acc : list team_option) (n : string) :
  In n (names (fold_left keep_first l acc)) <->
  In n (names acc) \/ In n (names l).
Proof.
  revert acc. induction l as [|x l IH]; intros acc; cbn [fold_left].
  - cbn. tauto.
  - rewrite IH.
    destruct (keep_first_cases acc x) as [[Hin ->]|[_ ->]];
      unfold names in *; cbn [map In].
    + split; [tauto|]. intros [H|[<-|H]]; auto.
    + rewrite map_app, in_app_iff. cbn [map In]. tauto.
Qed.

Lemma decodable_options_names (items : list (nested option_attrs))
    (n : string) :
  In n (names (decodable_options items)) <->
  exists item o, In item items /\ decode_option_item item = Some o /\
                 option_name o = n.
Proof.
  unfold names. rewrite in_map_iff. split.
  - intros (o & E & Ho). apply decodable_options_in in Ho.
    destruct Ho as (item & Hin & Hdec). now exists item, o.
  - intros (item & o & Hin & Hdec & E). exists o. split; [exact E|].
    apply decodable_options_in. now exists item.
Qed.

Lemma by_name_u32_run (name : string) (past : nat -> Z) (s : state) :
  run (team_get_option_value_by_name_u32 name past) s =
  match __find_option (th_option_list (th s)) name with
  | None => Done (- ENOENT, None) s
  | Some o => Done (0, Some (u32_at (option_data o) past)) s
  end.
Proof.
  unfold team_get_option_value_by_name_u32, run, bind.
  change (team_get_option_by_name name s)
    with (Done (__find_option (th_option_list (th s)) name) s).
  cbv beta iota. now destruct (__find_option _ _).
Qed.

Lemma by_name_string_run (name : string) (s : state) :
  run (team_get_option_value_by_name_string name) s =
  match __find_option (th_option_list (th s)) name with
  | None => Done (- ENOENT, None) s
  | Some o => Done (0, Some (option_data o)) s
  end.
Proof.
  unfold team_get_option_value_by_name_string, run, bind.
  change (team_get_option_by_name name s)
    with (Done (__find_option (th_option_list (th s)) name) s).
  cbv beta iota. now destruct (__find_option _ _).
Qed.

(** X3. Looking an option up after a refresh. After a message of the
    bound device has been decoded to its end, [team_get_option_by_name]
    returns the option of the first decodable item of that name; it
    returns NULL exactly when no decodable item of the message has that
    name, and then the two by-name getters return -ENOENT and store
    nothing; an option it returns always comes from an item of this
    message, so nothing of the former registry is found any more. The
    lookup changes nothing. *)
Theorem option_lookup_after_refresh (msg : nl_msg) (s s' : state)
    (a : nl_cb_action) (items : list (nested option_attrs)) :
  device_match msg (th s) ->
  TEAM_ATTR_LIST_OPTION msg = Some items ->
  Forall option_item_complete items ->
  run (get_options_handler msg) s = Done a s' ->
  forall name,
    (forall before item after o,
        items = before ++ item :: after ->
        decode_option_item item = Some o ->
        option_name o = strcpy name ->
        (forall item' o', In item' before ->
                          decode_option_item item' = Some o' ->
                          option_name o' <> option_name o) ->
        run (team_get_option_by_name name) s' = Done (Some o) s') /\
    (run (team_get_option_by_name name) s' = Done None s' <->
     forall item o, In item items -> decode_option_item item = Some o ->
                    option_name o <> strcpy name) /\
    (run (team_get_option_by_name name) s' = Done None s' ->
     (forall past,
         run (team_get_option_value_by_name_u32 name past) s' =
           Done (- ENOENT, None) s') /\
     run (team_get_option_value_by_name_string name) s' =
       Done (- ENOENT, None) s') /\
    (forall o,
        run (team_get_option_by_name name) s' = Done (Some o) s' ->
        option_name o = strcpy name /\
        exists item, In item items /\ decode_option_item item = Some o).
Proof.
  intros Hdev Hl Hall Hrun name.
  pose proof (refreshed_option_list msg s s' a items Hdev Hl Hall Hrun) as Hreg.
  pose proof (first_of_each_name_ok items) as Hok.
  assert (Hnd : NoDup (names (first_of_each_name (decodable_options items))))
    by (apply fold_keep_first_NoDup; constructor).
  split; [|split; [|split]].
  - intros before item after o Hitems Hdec Hname Hfirst.
    rewrite team_get_option_by_name_run, Hreg. f_equal.
    apply find_option_found; auto.
    now apply (first_decodable_kept items before after item).
  - rewrite team_get_option_by_name_run, Hreg.
    assert (E : __find_option
                  (first_of_each_name (decodable_options items)) name = None
                <-> ~ In (strcpy name) (names (decodable_options items))).
    { rewrite (find_option_absent _ name Hok).
      unfold first_of_each_name. rewrite fold_keep_first_names. cbn. tauto. }
    rewrite decodable_options_names in E.
    split.
    + intros H item o Hin Hdec Hname.
      assert (H' : __find_option
                     (first_of_each_name (decodable_options items)) name
                   = None) by congruence.
      apply E in H'. apply H'. now exists item, o.
    + intros H. f_equal. apply E.
      intros (item & o & Hin & Hdec & Hname). exact (H item o Hin Hdec Hname).
  - rewrite team_get_option_by_name_run, by_name_string_run.
    intros H.
    assert (H' : __find_option (th_option_list (th s')) name = None)
      by congruence.
    split; [intros past; rewrite by_name_u32_run|]; now rewrite H'.
  - intros o. rewrite team_get_option_by_name_run, Hreg. intros H.
    assert (H' : __find_option
                   (first_of_each_name (decodable_options items)) name
                 = Some o) by congruence.
    apply (find_option_some _ _ _ Hok) in H'.
    destruct H' as [Hin Hname]. split; [exact Hname|].
    apply fold_keep_first_from in Hin. destruct Hin as [[]|Hin].
    now apply decodable_options_in.
Qed.

(** X4. Values survive the refresh. For the first decodable item of its
    name in a message decoded to its end: when its type tag is NLA_U32,
    [team_get_option_value_by_name_u32] on that name returns 0 and
    stores the number of the data attribute, whatever memory holds
    after the block of the option; when it is NLA_STRING,
    [team_get_option_value_by_name_string] returns 0 and stores a
    pointer to the text of the data attribute. *)
Theorem option_value_round_trip (msg : nl_msg) (s s' : state)
    (a : nl_cb_action) (items before after : list (nested option_attrs))
    (attrs : option_attrs) (n t d : nlattr) :
  device_match msg (th s) ->
  TEAM_ATTR_LIST_OPTION msg = Some items ->
  Forall option_item_complete items ->
  run (get_options_handler msg) s = Done a s' ->
  items = before ++ nested_table attrs :: after ->
  TEAM_ATTR_OPTION_NAME attrs = Some n ->
  TEAM_ATTR_OPTION_TYPE attrs = Some t ->
  TEAM_ATTR_OPTION_DATA attrs = Some d ->
  (forall item' o', In item' before ->
                    decode_option_item item' = Some o' ->
                    option_name o' <> strcpy (nla_get_string n)) ->
  (to_int (nla_get_u32 t) = NLA_U32 ->
   forall past,
     run (team_get_option_value_by_name_u32 (nla_get_string n) past) s' =
       Done (0, Some (nla_get_u32 d)) s') /\
  (to_int (nla_get_u32 t) = NLA_STRING ->
   exists block,
     run (team_get_option_value_by_name_string (nla_get_string n)) s' =
       Done (0, Some block) s' /\
     string_at block = Some (strcpy (nla_get_string d))).
Proof.
  intros Hdev Hl Hall Hrun Hitems Hn Ht Hd Hfirst.
  pose proof (refreshed_option_list msg s s' a items Hdev Hl Hall Hrun) as Hreg.
  pose proof (first_of_each_name_ok items) as Hok.
  assert (Hnd : NoDup (names (first_of_each_name (decodable_options items))))
    by (apply fold_keep_first_NoDup; constructor).
  assert (Hfind : forall o,
             decode_option_item (nested_table attrs) = Some o ->
             option_name o = strcpy (nla_get_string n) ->
             __find_option (th_option_list (th s')) (nla_get_string n)
             = Some o).
  { intros o Hdec Hname. rewrite Hreg.
    apply find_option_found; auto.
    apply (first_decodable_kept items before after (nested_table attrs));
      auto.
    intros item' o' Hin Hdec'. rewrite Hname. now apply (Hfirst item'). }
  split.
  - intros Hty past.
    rewrite by_name_u32_run.
    rewrite (Hfind (mk_team_option TEAM_OPTION_TYPE_U32
                      (strcpy (nla_get_string n))
                      (bytes_of_u32 (nla_get_u32 d))
                      (present (TEAM_ATTR_OPTION_CHANGED attrs)))).
    + cbn [option_data].
      now rewrite u32_at_bytes by apply nla_get_u32_range.
    + cbn [decode_option_item]. rewrite Hn, Ht, Hd, Hty. reflexivity.
    + reflexivity.
  - intros Hty.
    exists (bytes_of_str (nla_get_string d)). split.
    + rewrite by_name_string_run.
      rewrite (Hfind (mk_team_option TEAM_OPTION_TYPE_STRING
                        (strcpy (nla_get_string n))
                        (bytes_of_str (nla_get_string d))
                        (present (TEAM_ATTR_OPTION_CHANGED attrs)))).
      * reflexivity.
      * cbn [decode_option_item]. rewrite Hn, Ht, Hd, Hty. reflexivity.
      * reflexivity.
    + apply string_at_bytes.
Qed.

Lemma u32_at_within (block : list Z) (past past' : nat -> Z) :
  (4 <= List.length block)%nat -> u32_at block past = u32_at block past'.
Proof.
  destruct block as [|b0 [|b1 [|b2 [|b3 r]]]]; cbn [List.length];
    intros H; try lia.
  reflexivity.
Qed.

Lemma u32_at_beyond (block : list Z) :
  (List.length block < 4)%nat ->
  u32_at block (fun _ => 0) <> u32_at block (fun _ => 1).
Proof.
  destruct block as [|b0 [|b1 [|b2 [|b3 r]]]]; cbn [List.length];
    intros H; try lia; unfold u32_at; cbn; lia.
Qed.

Lemma bytes_of_str_length (str : string) :
  Z.of_nat (List.length (bytes_of_str str)) = strlen str + 1.
Proof.
  unfold bytes_of_str, strlen.
  rewrite length_app, length_map. cbn [List.length].
  replace (List.length (list_ascii_of_string (strcpy str)))
    with (String.length (strcpy str)); [lia|].
  generalize (strcpy str) as cs.
  induction cs as [|c r IH]; simpl; congruence.
Qed.

(** X5. The number getter does not look at the type of the option.
    Applied to the name of a string option (the first decodable item of
    its name, with tag NLA_STRING) it does not fail: it returns 0 and
    stores the four bytes at the start of the text block read as a
    number. When the text has three characters or more these are bytes
    of the text and its terminator, whatever memory holds after the
    block; when the text is shorter the read goes past the block, and
    the number stored changes with what memory holds there. *)
Theorem u32_getter_ignores_type (msg : nl_msg) (s s' : state)
    (a : nl_cb_action) (items before after : list (nested option_attrs))
    (attrs : option_attrs) (n t d : nlattr) :
  device_match msg (th s) ->
  TEAM_ATTR_LIST_OPTION msg = Some items ->
  Forall option_item_complete items ->
  run (get_options_handler msg) s = Done a s' ->
  items = before ++ nested_table attrs :: after ->
  TEAM_ATTR_OPTION_NAME attrs = Some n ->
  TEAM_ATTR_OPTION_TYPE attrs = Some t ->
  TEAM_ATTR_OPTION_DATA attrs = Some d ->
  (forall item' o', In item' before ->
                    decode_option_item item' = Some o' ->
                    option_name o' <> strcpy (nla_get_string n)) ->
  to_int (nla_get_u32 t) = NLA_STRING ->
  let block := bytes_of_str (nla_get_string d) in
  (forall past,
      run (team_get_option_value_by_name_u32 (nla_get_string n) past) s' =
        Done (0, Some (u32_at block past)) s') /\
  (3 <= strlen (nla_get_string d) ->
   forall past past', u32_at block past = u32_at block past') /\
  (strlen (nla_get_string d) < 3 ->
   u32_at block (fun _ => 0) <> u32_at block (fun _ => 1)).
Proof.
  intros Hdev Hl Hall Hrun Hitems Hn Ht Hd Hfirst Hty block.
  pose proof (refreshed_option_list msg s s' a items Hdev Hl Hall Hrun) as Hreg.
  pose proof (first_of_each_name_ok items) as Hok.
  assert (Hnd : NoDup (names (first_of_each_name (decodable_options items))))
    by (apply fold_keep_first_NoDup; constructor).
  set (o := mk_team_option TEAM_OPTION_TYPE_STRING
              (strcpy (nla_get_string n)) block
              (present (TEAM_ATTR_OPTION_CHANGED attrs))).
  assert (Hdec : decode_option_item (nested_table attrs) = Some o).
  { cbn [decode_option_item]. rewrite Hn, Ht, Hd, Hty. reflexivity. }
  assert (Hfind : __find_option (th_option_list (th s')) (nla_get_string n)
                  = Some o).
  { rewrite Hreg. apply find_option_found; auto.
    apply (first_decodable_kept items before after (nested_table attrs));
      auto. }
  pose proof (bytes_of_str_length (nla_get_string d)) as Hlen.
  fold block in Hlen.
  split; [|split].
  - intros past. rewrite by_name_u32_run, Hfind. reflexivity.
  - intros Hs past past'. apply u32_at_within. lia.
  - intros Hs. apply u32_at_beyond. lia.
Qed.

Lemma sample_options_complete : Forall option_item_complete sample_options.
Proof. repeat constructor; eexists _, _, _, _; repeat split; reflexivity. Qed.

Lemma sample_options_refresh :
  exists s',
    run (get_options_handler (option_list_msg 5 sample_options)) bound_state
    = Done NL_SKIP s'.
Proof. apply get_options_handler_returns, bound_state_malloc. Qed.

Lemma option_lookup_after_refresh_witness :
  exists s',
    run (get_options_handler (option_list_msg 5 sample_options)) bound_state
      = Done NL_SKIP s' /\
    run (team_get_option_by_name "priority") s' = Done None s' /\
    run (team_get_option_value_by_name_u32 "priority" (fun _ => 0)) s' =
      Done (- ENOENT, None) s' /\
    run (team_get_option_by_name "mode") s' =
      Done (Some (mk_team_option TEAM_OPTION_TYPE_STRING "mode"
                    (bytes_of_str "rr") false)) s'.
Proof.
  destruct sample_options_refresh as (s' & Hrun).
  destruct (option_lookup_after_refresh _ _ _ _ _
              (bound_state_device_options sample_options) eq_refl
              sample_options_complete Hrun "priority"%string)
    as (_ & Hnone & Hget & _).
  destruct (option_lookup_after_refresh _ _ _ _ _
              (bound_state_device_options sample_options) eq_refl
              sample_options_complete Hrun "mode"%string)
    as (Hfirst & _).
  assert (N : run (team_get_option_by_name "priority") s' = Done None s').
  { apply Hnone. intros item o Hin Hdec.
    destruct Hin as [<-|[<-|[<-|[]]]]; inversion Hdec; discriminate. }
  exists s'. split; [exact Hrun|]. split; [exact N|].
  split; [exact (proj1 (Hget N) (fun _ => 0))|].
  apply (Hfirst [option_item "activeport" NLA_U32 (u32_attr 42)]
           (option_item "mode" NLA_STRING (string_attr "rr"))
           [option_item "mode" NLA_STRING (string_attr "activebackup")]);
    try reflexivity.
  intros item' o' [<-|[]] Hdec. inversion Hdec. discriminate.
Defined.

Lemma option_value_round_trip_witness :
  exists s',
    run (get_options_handler (option_list_msg 5 sample_options)) bound_state
      = Done NL_SKIP s' /\
    run (team_get_option_value_by_name_u32 "activeport" (fun _ => 0)) s' =
      Done (0, Some 42) s'.
Proof.
  destruct sample_options_refresh as (s' & Hrun).
  exists s'. split; [exact Hrun|].
  refine (proj1 (option_value_round_trip _ _ _ _ sample_options []
                  [option_item "mode" NLA_STRING (string_attr "rr");
                   option_item "mode" NLA_STRING (string_attr "activebackup")]
                  _ (string_attr "activeport") (u32_attr NLA_U32)
                  (u32_attr 42)
                  (bound_state_device_options sample_options) eq_refl
                  sample_options_complete Hrun eq_refl eq_refl eq_refl
                  eq_refl ltac:(intros item' o' [])) eq_refl (fun _ => 0)).
Defined.

Lemma u32_getter_ignores_type_witness :
  exists s',
    run (get_options_handler (option_list_msg 5 sample_options)) bound_state
      = Done NL_SKIP s' /\
    run (team_get_option_value_by_name_u32 "mode" (fun _ => 0)) s' =
      Done (0, Some 29298) s' /\
    run (team_get_option_value_by_name_u32 "mode" (fun _ => 1)) s' =
      Done (0, Some 16806514) s'.
Proof.
  destruct sample_options_refresh as (s' & Hrun).
  exists s'. split; [exact Hrun|].
  pose proof (proj1 (u32_getter_ignores_type _ _ _ _ sample_options
                  [option_item "activeport" NLA_U32 (u32_attr 42)]
                  [option_item "mode" NLA_STRING (string_attr "activebackup")]
                  _ (string_attr "mode") (u32_attr NLA_STRING)
                  (string_attr "rr")
                  (bound_state_device_options sample_options) eq_refl
                  sample_options_complete Hrun eq_refl eq_refl eq_refl
                  eq_refl
                  ltac:(intros item' o' [<-|[]] Hdec; inversion Hdec;
                        discriminate)
                  eq_refl)) as H.
  split; [exact (H (fun _ => 0))|exact (H (fun _ => 1))].
Defined.

(** ** What decoding leaves alone *)

Lemma land_lor_same (p b : Z) : Z.land p (Z.lor p b) = p.
Proof.
  apply Z.bits_inj'. intros i Hi.
  rewrite Z.land_spec, Z.lor_spec. now destruct (Z.testbit p i).
Qed.

Lemma land_lor_lnot (p b : Z) :
  Z.land (Z.lor p b) (Z.lnot b) = Z.land p (Z.lnot b).
Proof.
  apply Z.bits_inj'. intros i Hi.
  rewrite !Z.land_spec, Z.lor_spec, Z.lnot_spec by exact Hi.
  now destruct (Z.testbit p i), (Z.testbit b i).
Qed.


Lemma same_device_refl (h : team_handle) : same_device h h.
Proof. unfold same_device. tauto. Qed.


Lemma pending_kept_refl (h : team_handle) : pending_kept h h.
Proof. apply Z.land_diag. Qed.


Lemma decoding_only_refl (s : state) : decoding_only s s.
Proof. exists O. cbn. rewrite app_nil_r. now destruct s. Qed.

Lemma decoding_only_trans (s1 s2 s3 : state) :
  decoding_only s1 s2 -> decoding_only s2 s3 -> decoding_only s1 s3.
Proof.
  intros (k1 & E1) (k2 & E2). exists (k1 + k2)%nat.
  destruct s1, s2, s3. cbn in *. inversion E1. inversion E2. subst.
  now rewrite repeat_app, app_assoc.
Qed.

Lemma decoding_only_malloc (s : state) :
  decoding_only s (set_trace (trace s ++ [c_malloc]) s).
Proof. exists 1%nat. now destruct s. Qed.

Lemma decoding_only_set_th (s s' : state) (h : team_handle) :
  decoding_only s s' -> decoding_only s (set_th h s').
Proof.
  intros (k & E). exists k. destruct s, s'. cbn in *. inversion E. subst.
  reflexivity.
Qed.

Lemma port_list_loop_frame (items : list (nested port_attrs))
    (tmp : list team_port) (s : state) (r : option (list team_port))
    (s' : state) :
  run (port_list_loop items tmp) s = Done r s' ->
  th s' = th s /\ decoding_only s s'.
Proof.
  revert tmp s. induction items as [|item items IH]; intros tmp s.
  - cbn. intros H. inversion H. subst. split; [reflexivity|].
    apply decoding_only_refl.
  - cbn [port_list_loop].
    destruct item as [|attrs]; cbn [nla_parse_nested].
    { cbn. intros H. inversion H. subst. split; [reflexivity|].
      apply decoding_only_refl. }
    destruct (TEAM_ATTR_PORT_IFINDEX attrs) as [a|].
    2:{ cbn. intros H. inversion H. subst. split; [reflexivity|].
        apply decoding_only_refl. }
    unfold_monad. cbv zeta.
    destruct (oracle s (trace s ++ [c_malloc]) =? 0).
    { intros H. inversion H. subst. split; [reflexivity|].
      apply decoding_only_malloc. }
    intros H. apply IH in H. destruct H as [Hth Hd].
    split; [exact Hth|].
    exact (decoding_only_trans _ _ _ (decoding_only_malloc s) Hd).
Qed.

Lemma create_option_frame (name : string) (opt_type : team_option_type)
    (data : list Z) (data_size : Z) (changed : bool) (s : state)
    (r : option team_option) (s' : state) :
  run (create_option name opt_type data data_size changed) s = Done r s' ->
  th s' = th s /\ decoding_only s s'.
Proof.
  unfold create_option. unfold_monad. cbv zeta.
  destruct (oracle s (trace s ++ [c_malloc]) =? 0).
  { intros H. inversion H. split; [reflexivity|].
    apply decoding_only_malloc. }
  cbn. destruct (oracle s ((trace s ++ [c_malloc]) ++ [c_malloc]) =? 0).
  { intros H. inversion H. split; [reflexivity|].
    exists 2%nat. destruct s. cbn. now rewrite <- app_assoc. }
  cbn. destruct (oracle s (((trace s ++ [c_malloc]) ++ [c_malloc])
                             ++ [c_malloc]) =? 0).
  { intros H. inversion H. split; [reflexivity|].
    exists 3%nat. destruct s. cbn. now rewrite <- !app_assoc. }
  intros H. inversion H. split; [reflexivity|].
  exists 3%nat. destruct s. cbn. now rewrite <- !app_assoc.
Qed.

Lemma option_list_loop_frame (items : list (nested option_attrs))
    (tmp : list team_option) (s : state) (r : option (list team_option))
    (s' : state) :
  run (option_list_loop items tmp) s = Done r s' ->
  th s' = th s /\ decoding_only s s'.
Proof.
  revert tmp s. induction items as [|item items IH]; intros tmp s.
  - cbn. intros H. inversion H. subst. split; [reflexivity|].
    apply decoding_only_refl.
  - cbn [option_list_loop].
    destruct item as [|attrs]; cbn [nla_parse_nested].
    { cbn. intros H. inversion H. subst. split; [reflexivity|].
      apply decoding_only_refl. }
    destruct (TEAM_ATTR_OPTION_NAME attrs) as [n|].
    2:{ cbn. intros H. inversion H. subst. split; [reflexivity|].
        apply decoding_only_refl. }
    destruct (TEAM_ATTR_OPTION_TYPE attrs) as [t|].
    2:{ cbn. intros H. inversion H. subst. split; [reflexivity|].
        apply decoding_only_refl. }
    destruct (TEAM_ATTR_OPTION_DATA attrs) as [d|].
    2:{ cbn. intros H. inversion H. subst. split; [reflexivity|].
        apply decoding_only_refl. }
    cbv zeta.
    destruct (__find_option tmp (nla_get_string n)); [apply IH|].
    destruct (to_int (nla_get_u32 t) =? NLA_U32);
      [|destruct (to_int (nla_get_u32 t) =? NLA_STRING); [|apply IH]].
    + unfold run, bind.
      match goal with
      | |- context [create_option ?a ?b ?c ?e ?f s] =>
          destruct (create_option a b c e f s) as [o s1| |] eqn:Hc
      end; try discriminate.
      apply create_option_frame in Hc. destruct Hc as [Hth1 Hd1].
      destruct o as [o|]; [|discriminate].
      intros H. apply IH in H. destruct H as [Hth Hd].
      split; [congruence|]. exact (decoding_only_trans _ _ _ Hd1 Hd).
    + unfold run, bind.
      match goal with
      | |- context [create_option ?a ?b ?c ?e ?f s] =>
          destruct (create_option a b c e f s) as [o s1| |] eqn:Hc
      end; try discriminate.
      apply create_option_frame in Hc. destruct Hc as [Hth1 Hd1].
      destruct o as [o|]; [|discriminate].
      intros H. apply IH in H. destruct H as [Hth Hd].
      split; [congruence|]. exact (decoding_only_trans _ _ _ Hd1 Hd).
Qed.

Lemma decoded_from_refl (s : state) : decoded_from s s.
Proof.
  split; [apply decoding_only_refl|].
  split; [apply same_device_refl|].
  split; [reflexivity|apply pending_kept_refl].
Qed.


Lemma get_port_list_handler_trace (msg : nl_msg) (s : state)
    (a : nl_cb_action) (s' : state) :
  get_port_list_handler msg s = Done a s' -> decoding_only s s'.
Proof.
  unfold get_port_list_handler. unfold_monad. cbv zeta.
  destruct (negb _).
  { intros H. inversion H. apply decoding_only_refl. }
  destruct (TEAM_ATTR_LIST_PORT msg) as [items|].
  2:{ intros H. inversion H. apply decoding_only_refl. }
  destruct (port_list_loop items [] s) as [r s1| |] eqn:Hl;
    try discriminate.
  apply port_list_loop_frame in Hl. destruct Hl as [_ Hd].
  destruct r as [l|].
  - intros H. inversion H. now repeat apply decoding_only_set_th.
  - intros H. inversion H. now subst.
Qed.

Lemma get_options_handler_trace (msg : nl_msg) (s : state)
    (a : nl_cb_action) (s' : state) :
  get_options_handler msg s = Done a s' -> decoding_only s s'.
Proof.
  unfold get_options_handler. unfold_monad. cbv zeta.
  destruct (negb _).
  { intros H. inversion H. apply decoding_only_refl. }
  destruct (TEAM_ATTR_LIST_OPTION msg) as [items|].
  2:{ intros H. inversion H. apply decoding_only_refl. }
  destruct (option_list_loop items [] s) as [r s1| |] eqn:Hl;
    try discriminate.
  apply option_list_loop_frame in Hl. destruct Hl as [_ Hd].
  destruct r as [l|].
  - intros H. inversion H. now repeat apply decoding_only_set_th.
  - intros H. inversion H. now subst.
Qed.

Lemma get_port_list_handler_decoded (msg : nl_msg) (s : state)
    (a : nl_cb_action) (s' : state) :
  get_port_list_handler msg s = Done a s' ->
  a = NL_SKIP /\ decoded_from s s' /\
  th_option_list (th s') = th_option_list (th s) /\
  Z.land (th_pending_type_mask (th s')) (Z.lnot TEAM_PORT_CHANGE) =
  Z.land (th_pending_type_mask (th s)) (Z.lnot TEAM_PORT_CHANGE).
Proof.
  intros Hrun. pose proof (get_port_list_handler_trace _ _ _ _ Hrun) as Hd.
  destruct (get_port_list_handler_run msg s)
    as (s1 & Hrun1 & _ & [Hth|(items & ports & _ & _ & Hth)]);
    unfold run in Hrun1; rewrite Hrun in Hrun1; inversion Hrun1; subst.
  - rewrite Hth. split; [reflexivity|]. split; [|split; reflexivity].
    split; [exact Hd|]. rewrite Hth.
    split; [apply same_device_refl|].
    split; [reflexivity|apply pending_kept_refl].
  - split; [reflexivity|]. split; [|split].
    + split; [exact Hd|]. rewrite Hth. unfold same_device, pending_kept.
      cbn. split; [tauto|]. split; [reflexivity|].
      apply land_lor_same.
    + now rewrite Hth.
    + rewrite Hth. cbn [th_pending_type_mask set_pending_type_mask].
      apply land_lor_lnot.
Qed.

Lemma get_options_handler_decoded (msg : nl_msg) (s : state)
    (a : nl_cb_action) (s' : state) :
  get_options_handler msg s = Done a s' ->
  a = NL_SKIP /\ decoded_from s s' /\
  th_port_list (th s') = th_port_list (th s) /\
  Z.land (th_pending_type_mask (th s')) (Z.lnot TEAM_OPTION_CHANGE) =
  Z.land (th_pending_type_mask (th s)) (Z.lnot TEAM_OPTION_CHANGE).
Proof.
  intros Hrun. pose proof (get_options_handler_trace _ _ _ _ Hrun) as Hd.
  pose proof (get_options_handler_run msg s) as H.
  unfold run in H. rewrite Hrun in H.
  destruct H as (-> & _ & [Hth|(items & _ & _ & Hth)]).
  - rewrite Hth. split; [reflexivity|]. split; [|split; reflexivity].
    split; [exact Hd|]. rewrite Hth.
    split; [apply same_device_refl|].
    split; [reflexivity|apply pending_kept_refl].
  - split; [reflexivity|]. split; [|split].
    + split; [exact Hd|]. rewrite Hth. unfold same_device, pending_kept.
      cbn. split; [tauto|]. split; [reflexivity|].
      apply land_lor_same.
    + now rewrite Hth.
    + rewrite Hth. cbn [th_pending_type_mask set_pending_type_mask].
      apply land_lor_lnot.
Qed.

Lemma event_handler_decoded (msg : nl_msg) (s : state) (a : nl_cb_action)
    (s' : state) :
  event_handler msg s = Done a s' ->
  a = NL_SKIP /\ decoded_from s s' /\
  (cmd msg <> TEAM_CMD_PORT_LIST_GET ->
   th_port_list (th s') = th_port_list (th s)) /\
  (cmd msg <> TEAM_CMD_OPTIONS_GET ->
   th_option_list (th s') = th_option_list (th s)) /\
  (cmd msg <> TEAM_CMD_PORT_LIST_GET -> cmd msg <> TEAM_CMD_OPTIONS_GET ->
   s' = s).
Proof.
  unfold event_handler. destruct (cmd msg) eqn:Hc.
  - intros H. inversion H. subst.
    split; [reflexivity|]. split; [apply decoded_from_refl|]. tauto.
  - intros H. inversion H. subst.
    split; [reflexivity|]. split; [apply decoded_from_refl|]. tauto.
  - intros H. apply get_options_handler_decoded in H.
    destruct H as (Ha & Hd & Hp & _).
    split; [exact Ha|]. split; [exact Hd|]. split; [now intros _|].
    split; [now intros N|]. now intros _ N.
  - intros H. apply get_port_list_handler_decoded in H.
    destruct H as (Ha & Hd & Ho & _).
    split; [exact Ha|]. split; [exact Hd|]. split; [now intros N|].
    split; [now intros _|]. now intros N.
  - intros H. inversion H. subst.
    split; [reflexivity|]. split; [apply decoded_from_refl|]. tauto.
Qed.


(** ** Processing an event *)

Lemma decoding_only_fields (s s' : state) :
  decoding_only s s' ->
  mem s' = mem s /\ oracle s' = oracle s /\ rx_sock s' = rx_sock s /\
  rx_sock_event s' = rx_sock_event s /\
  exists k, trace s' = trace s ++ repeat c_malloc k.
Proof.
  intros (k & E). rewrite E. cbn. repeat split. now exists k.
Qed.




(** X6. Decoding a notification touches the two registries, the pending
    mask and the allocator, and nothing else: whatever the message,
    [event_handler] returns NL_SKIP with the family, the interface
    index, the handler collection, the log priority and the receive
    status as they were and with every category that was pending still
    pending; the trace gains allocations only, so no handler is called
    and nothing is sent. A port-list message leaves the option list as
    it was, an option-list message the port list, and a message of
    another command the whole state. *)
Theorem decoding_touches_registries_only (msg : nl_msg) (s s' : state)
    (a : nl_cb_action) :
  run (event_handler msg) s = Done a s' ->
  a = NL_SKIP /\
  (exists k, trace s' = trace s ++ repeat c_malloc k) /\
  same_device (th s) (th s') /\
  th_nl_sock_err (th s') = th_nl_sock_err (th s) /\
  pending_kept (th s) (th s') /\
  (cmd msg <> TEAM_CMD_PORT_LIST_GET ->
   th_port_list (th s') = th_port_list (th s)) /\
  (cmd msg <> TEAM_CMD_OPTIONS_GET ->
   th_option_list (th s') = th_option_list (th s)) /\
  (cmd msg <> TEAM_CMD_PORT_LIST_GET -> cmd msg <> TEAM_CMD_OPTIONS_GET ->
   s' = s).
Proof.
  intros Hrun. apply event_handler_decoded in Hrun.
  destruct Hrun as (Ha & (Hd & Hdev & Herr & Hpend) & Hp & Ho & Hs).
  destruct (decoding_only_fields _ _ Hd) as (_ & _ & _ & _ & Htr).
  tauto.
Qed.

Lemma decoding_touches_registries_only_witness :
  exists s',
    run (event_handler (option_list_msg 5 sample_options)) registry_state =
      Done NL_SKIP s' /\
    th_port_list (th s') = [mk_team_port 3 100 1 true false] /\
    th_ifindex (th s') = 5.
Proof.
  assert (E : exists s',
             run (event_handler (option_list_msg 5 sample_options))
               registry_state = Done NL_SKIP s')
    by (vm_compute; eexists; reflexivity).
  destruct E as (s' & E). exists s'. split; [exact E|].
  destruct (decoding_touches_registries_only
              (option_list_msg 5 sample_options) registry_state s' NL_SKIP E)
    as (_ & _ & (_ & Hi & _) & _ & _ & Hp & _).
  split; [apply Hp; discriminate|exact Hi].
Defined.

(** ** Requests *)









(** ** Initialisation, continued *)







(** ** Sequences of registrations *)

Lemma register_step (s : state) (handler : ptr) :
  exists r s',
    run (team_change_handler_register handler) s = Done r s' /\
    (th_change_handler_list (th s') = th_change_handler_list (th s) \/
     ~ In handler (th_change_handler_list (th s)) /\
     th_change_handler_list (th s') =
       th_change_handler_list (th s) ++ [handler]).
Proof.
  destruct (in_dec Nat.eq_dec handler (th_change_handler_list (th s)))
    as [Hin|Hnot].
  - exists (- EEXIST), s. split; [now apply register_present|now left].
  - rewrite (register_absent s handler Hnot). cbv zeta.
    destruct (oracle s (trace s ++ [c_malloc]) =? 0).
    + eexists _, _. split; [reflexivity|]. now left.
    + eexists _, _. split; [reflexivity|]. right. now split.
Qed.

Lemma unregister_step (s : state) (handler : ptr) :
  exists s',
    run (team_change_handler_unregister handler) s = Done tt s' /\
    (forall q, In q (th_change_handler_list (th s')) ->
               In q (th_change_handler_list (th s))) /\
    (forall q, q <> handler -> In q (th_change_handler_list (th s)) ->
               In q (th_change_handler_list (th s'))) /\
    (NoDup (th_change_handler_list (th s)) ->
     ~ In handler (th_change_handler_list (th s'))).
Proof.
  destruct (in_dec Nat.eq_dec handler (th_change_handler_list (th s)))
    as [Hin|Hnot].
  - destruct (find_change_handler (th_change_handler_list (th s)) handler)
      as [i|] eqn:Hf.
    2:{ apply find_change_handler_none in Hf. contradiction. }
    apply find_change_handler_some in Hf.
    destruct Hf as (l1 & l2 & Hl & Hl1 & _).
    rewrite (unregister_present s handler l1 l2 Hl Hl1).
    eexists. split; [reflexivity|]. cbn. rewrite Hl.
    split; [|split].
    + intros q Hq. apply in_app_or in Hq. apply in_or_app.
      destruct Hq; [now left|right; now right].
    + intros q Hne Hq. apply in_app_or in Hq. apply in_or_app.
      destruct Hq as [Hq|[Hq|Hq]]; [now left|congruence|now right].
    + intros Hnd. now apply NoDup_remove_2 in Hnd.
  - exists s. split; [now apply unregister_absent|].
    split; [auto|]. split; [auto|]. now intros _.
Qed.

Lemma registry_ops_app (ops1 ops2 : list registry_op) (s : state) :
  run (registry_ops (ops1 ++ ops2)) s =
  run (registry_ops ops1 ;;; registry_ops ops2) s.
Proof.
  revert s. induction ops1 as [|op ops1 IH]; intros s; [reflexivity|].
  destruct op as [p|p]; cbn [app registry_ops]; unfold run, bind in *.
  - destruct (team_change_handler_register p s); auto.
  - destruct (team_change_handler_unregister p s); auto.
Qed.

Lemma registry_ops_run (ops : list registry_op) (s : state) :
  NoDup (th_change_handler_list (th s)) ->
  exists s',
    run (registry_ops ops) s = Done tt s' /\
    NoDup (th_change_handler_list (th s')) /\
    (forall p, In p (th_change_handler_list (th s')) ->
               In p (th_change_handler_list (th s)) \/
               In (op_register p) ops) /\
    (forall p, In p (th_change_handler_list (th s)) ->
               ~ In (op_unregister p) ops ->
               In p (th_change_handler_list (th s'))).
Proof.
  revert s. induction ops as [|op ops IH]; intros s Hnd.
  - exists s. split; [reflexivity|]. split; [exact Hnd|].
    split; [now left|auto].
  - destruct op as [p|p]; cbn [registry_ops]; unfold run, bind.
    + destruct (register_step s p) as (r & s1 & Hrun & Hl).
      unfold run in Hrun. rewrite Hrun.
      assert (Hnd1 : NoDup (th_change_handler_list (th s1))).
      { exact (proj1 (change_handler_list_NoDup s s1 p Hnd) r Hrun). }
      destruct (IH s1 Hnd1) as (s' & Hrun' & Hnd' & Hfrom & Hkeep).
      exists s'. split; [exact Hrun'|]. split; [exact Hnd'|]. split.
      * intros q Hq. destruct (Hfrom q Hq) as [H|H]; [|right; now right].
        destruct Hl as [E|[_ E]]; rewrite E in H; [now left|].
        apply in_app_or in H. destruct H as [H|[<-|[]]]; [now left|].
        right. now left.
      * intros q Hq Hno. apply Hkeep.
        -- destruct Hl as [E|[_ E]]; rewrite E; [exact Hq|].
           apply in_or_app. now left.
        -- intros H. apply Hno. now right.
    + destruct (unregister_step s p) as (s1 & Hrun & Hsub & Hothers & _).
      unfold run in Hrun. rewrite Hrun.
      assert (Hnd1 : NoDup (th_change_handler_list (th s1))).
      { exact (proj2 (change_handler_list_NoDup s s1 p Hnd) Hrun). }
      destruct (IH s1 Hnd1) as (s' & Hrun' & Hnd' & Hfrom & Hkeep).
      exists s'. split; [exact Hrun'|]. split; [exact Hnd'|]. split.
      * intros q Hq. destruct (Hfrom q Hq) as [H|H]; [|right; now right].
        left. now apply Hsub.
      * intros q Hq Hno. apply Hkeep.
        -- apply Hothers; [|exact Hq]. intros ->. apply Hno. now left.
        -- intros H. apply Hno. now right.
Qed.

(** X10. The collection of handlers stays a set under every sequence of
    registrations and removals. From a collection without repetition
    (the empty one of [team_alloc] is one) such a sequence always runs
    to its end and leaves a collection without repetition; a handler in
    it was there before or was registered by the sequence, and a handler
    that was there and that the sequence never unregisters is still
    there. After a sequence that ends with the removal of a handler,
    that handler is not in the collection, however many times it was
    registered. *)
Theorem registry_stays_a_set (ops : list registry_op) (s : state) :
  NoDup (th_change_handler_list (th s)) ->
  exists s',
    run (registry_ops ops) s = Done tt s' /\
    NoDup (th_change_handler_list (th s')) /\
    (forall p, In p (th_change_handler_list (th s')) ->
               In p (th_change_handler_list (th s)) \/
               In (op_register p) ops) /\
    (forall p, In p (th_change_handler_list (th s)) ->
               ~ In (op_unregister p) ops ->
               In p (th_change_handler_list (th s'))) /\
    (forall p ops1, ops = ops1 ++ [op_unregister p] ->
                    ~ In p (th_change_handler_list (th s'))).
Proof.
  intros Hnd.
  destruct (registry_ops_run ops s Hnd) as (s' & Hrun & Hnd' & Hfrom & Hkeep).
  exists s'. split; [exact Hrun|]. split; [exact Hnd'|].
  split; [exact Hfrom|]. split; [exact Hkeep|].
  intros p ops1 Hops. subst ops.
  rewrite registry_ops_app in Hrun. unfold run, bind in Hrun.
  destruct (registry_ops_run ops1 s Hnd) as (s1 & Hrun1 & Hnd1 & _).
  unfold run in Hrun1. rewrite Hrun1 in Hrun. cbn [registry_ops] in Hrun.
  unfold bind, ret in Hrun.
  destruct (unregister_step s1 p) as (s2 & Hrun2 & _ & _ & Hgone).
  unfold run in Hrun2. rewrite Hrun2 in Hrun. inversion Hrun. subst s2.
  now apply Hgone.
Qed.

Lemma registry_stays_a_set_witness :
  exists s',
    run (registry_ops [op_register 30%nat; op_register 10%nat;
                       op_unregister 30%nat]) two_handlers_state
      = Done tt s' /\
    NoDup (th_change_handler_list (th s')) /\
    ~ In 30%nat (th_change_handler_list (th s')) /\
    In 10%nat (th_change_handler_list (th s')).
Proof.
  assert (Hnd : NoDup (th_change_handler_list (th two_handlers_state))).
  { repeat constructor; simpl; intros H; repeat destruct H as [H|H];
      try discriminate H; exact H. }
  destruct (registry_stays_a_set
              [op_register 30%nat; op_register 10%nat; op_unregister 30%nat]
              two_handlers_state Hnd)
    as (s' & Hrun & Hnd' & _ & Hkeep & Hgone).
  exists s'. split; [exact Hrun|]. split; [exact Hnd'|]. split.
  - apply (Hgone 30%nat [op_register 30%nat; op_register 10%nat]).
    reflexivity.
  - apply Hkeep; [simpl; now left|].
    intros [H|[H|[H|[]]]]; discriminate H.
Defined.
